(** * ezh: writers of fixed-layout binary data

    A shallow embedding of [ezh.h]: the three variadic function templates
    [writeToFile], [writeToRawMemory] and [writeToBuffer], which copy the
    object representation of every argument, in argument order, to an
    output file stream, to raw memory, or into a [std::vector<char>] at an
    offset.

    Modelling decisions.
    - An argument is a typed blob: its fundamental type and the
      [sizeof] bytes of its object representation.  The writers never look
      inside a value, they hand its address and its size to [write] or
      [memcpy].
    - [sizeof] is implementation defined, so the development is generic in
      a [DataModel]; LP64 and LLP64 are given as instances.
    - [size_t] is the 64-bit unsigned type: its addition wraps modulo
      [2^64].  A [char*] is a 64-bit address into a flat byte-addressed
      store, the null pointer is address [0], and pointer addition is the
      machine's (modulo [2^64]).
    - [throw] is an outcome that carries the exception together with the
      state reached when it was raised.
    - [std::ofstream], [std::vector<char>] and [std::memcpy] are not part
      of the repository; they are modelled after the C++ standard, as far
      as the writers use them. *)

From Stdlib Require Import Bool String Strings.Byte ZArith List Lia.
Import ListNotations.
Open Scope Z_scope.

(** ** Fundamental types and their sizes *)

(** The non-pointer fundamental types that can be the type of a by-value
    parameter: [void] is fundamental but has no values; [std::nullptr_t]
    is fundamental and is not a pointer type, so the [enable_if] guard of
    the three templates lets it through. *)
Inductive fundamental : Type :=
  | TBool | TChar | TSChar | TUChar | TWChar | TChar16 | TChar32
  | TShort | TUShort | TInt | TUInt | TLong | TULong | TLongLong | TULongLong
  | TFloat | TDouble | TLongDouble | TNullptr.

Definition SIZE_MAX : Z := 2 ^ 64 - 1.
Definition PTRDIFF_MAX : Z := 2 ^ 63 - 1.

(** What an implementation fixes: the value of [sizeof] at every
    fundamental type.  [sizeof] is at least 1, and no object is larger
    than [PTRDIFF_MAX] bytes. *)
Class DataModel : Type := {
  sizeof_type : fundamental -> nat;
  sizeof_pos : forall t, (1 <= sizeof_type t)%nat;
  sizeof_max : forall t, Z.of_nat (sizeof_type t) <= PTRDIFF_MAX
}.

Definition lp64_sizeof (t : fundamental) : nat :=
  match t with
  | TBool | TChar | TSChar | TUChar => 1
  | TShort | TUShort | TChar16 => 2
  | TInt | TUInt | TFloat | TChar32 | TWChar => 4
  | TLong | TULong | TLongLong | TULongLong | TDouble | TNullptr => 8
  | TLongDouble => 16
  end%nat.

Definition llp64_sizeof (t : fundamental) : nat :=
  match t with
  | TBool | TChar | TSChar | TUChar => 1
  | TShort | TUShort | TChar16 | TWChar => 2
  | TInt | TUInt | TLong | TULong | TFloat | TChar32 => 4
  | TLongLong | TULongLong | TDouble | TLongDouble | TNullptr => 8
  end%nat.

(** x86-64 System V (Linux, macOS). *)
Definition LP64 : DataModel.
Proof.
  refine {| sizeof_type := lp64_sizeof |}.
  - intros []; cbn; repeat constructor.
  - intros []; intro H; discriminate H.
Defined.

(** x64 Windows. *)
Definition LLP64 : DataModel.
Proof.
  refine {| sizeof_type := llp64_sizeof |}.
  - intros []; cbn; repeat constructor.
  - intros []; intro H; discriminate H.
Defined.

(** ** Object representations *)

(** [blob n]: exactly [n] bytes. *)
Fixpoint blob (n : nat) : Type :=
  match n with
  | O => unit
  | S k => (byte * blob k)%type
  end.

Fixpoint blob_bytes {n : nat} : blob n -> list byte :=
  match n with
  | O => fun _ => []
  | S k => fun b => fst b :: blob_bytes (snd b)
  end.

(** The first [n] bytes of [l] as a blob, and the rest of [l]; [None] when
    [l] is too short. *)
Fixpoint blob_of_bytes (n : nat) (l : list byte) : option (blob n * list byte) :=
  match n with
  | O => Some (tt, l)
  | S k =>
      match l with
      | [] => None
      | b :: l' =>
          match blob_of_bytes k l' with
          | Some (bs, rest) => Some ((b, bs), rest)
          | None => None
          end
      end
  end.

(** ** 64-bit arithmetic *)

(** Addition of two [size_t]. *)
Definition size_t_add (a b : Z) : Z := (a + b) mod 2 ^ 64.

(** [p + n] on a [char*]. *)
Definition ptr_add (p n : Z) : Z := (p + n) mod 2 ^ 64.

Definition nullptr : Z := 0.

(** ** The byte-addressed store *)

Definition memory : Type := Z -> byte.

Definition store (m : memory) (a : Z) (b : byte) : memory :=
  fun x => if x =? a then b else m x.

Fixpoint store_bytes (m : memory) (p : Z) (bs : list byte) : memory :=
  match bs with
  | [] => m
  | b :: bs' => store_bytes (store m p b) (ptr_add p 1) bs'
  end.

(** [std::memcpy(dst, src, n)], [src] being the bytes found at the source
    address. *)
Definition memcpy (m : memory) (dst : Z) (src : list byte) (n : nat) : memory :=
  store_bytes m dst (firstn n src).

(** The [n] bytes found at [p]. *)
Fixpoint load_bytes (m : memory) (p : Z) (n : nat) : list byte :=
  match n with
  | O => []
  | S k => m p :: load_bytes m (ptr_add p 1) k
  end.

(** ** Exceptions *)

Inductive exn : Type :=
  | runtime_error (what : string).

Inductive outcome (St A : Type) : Type :=
  | Returned (a : A) (s : St)
  | Threw (e : exn) (s : St).
Arguments Returned {St A} a s.
Arguments Threw {St A} e s.

(** The two kinds of failure the specification distinguishes; the source
    raises [std::runtime_error] for both and tells them apart by message. *)
Inductive error_class : Type :=
  | InvalidDestination
  | CapacityExceeded.

Definition classify (e : exn) : option error_class :=
  match e with
  | runtime_error w =>
      if (w =? "File stream is not open")%string then Some InvalidDestination
      else if (w =? "Null buffer pointer")%string then Some InvalidDestination
      else if (w =? "Buffer too small for data")%string then Some CapacityExceeded
      else None
  end.

Definition raises {St A : Type} (o : outcome St A) (c : error_class) : Prop :=
  match o with
  | Threw e _ => classify e = Some c
  | Returned _ _ => False
  end.

Definition returns {St A : Type} (o : outcome St A) : Prop :=
  match o with
  | Returned _ _ => True
  | Threw _ _ => False
  end.

(** ** [std::ofstream] *)

(** As much of the standard stream as the writer touches: whether the file
    buffer is open, the three state bits, the bytes the stream has accepted
    so far, and how many more its sink will take ([None]: no limit).  The
    exception mask is the default one, so setting a state bit never
    throws. *)
Record ofstream : Type := mk_ofstream {
  is_open : bool;
  badbit : bool;
  failbit : bool;
  eofbit : bool;
  room : option nat;
  written : list byte
}.

Definition good (f : ofstream) : bool := negb (badbit f || failbit f || eofbit f).

(** [fail()], which is what [operator!] returns. *)
Definition fail (f : ofstream) : bool := badbit f || failbit f.

(** How many of [n] bytes the stream buffer takes: none when no file is
    open. *)
Definition accepted (f : ofstream) (n : nat) : nat :=
  if is_open f then
    match room f with
    | None => n
    | Some r => Nat.min r n
    end
  else O.

(** [f.write(s, n)].  The sentry fails on a stream that is not good, and
    then nothing is inserted; the standard lets the sentry set [failbit]
    on that occasion and libstdc++ does so when the stream is [bad()],
    which is what is modelled.  Past the sentry, bytes are inserted until
    [n] are in or insertion fails, which sets [badbit]. *)
Definition ostream_write (f : ofstream) (s : list byte) (n : nat) : ofstream :=
  if good f then
    let k := accepted f n in
    {| is_open := is_open f;
       badbit := (k <? n)%nat;
       failbit := failbit f;
       eofbit := eofbit f;
       room := option_map (fun r => (r - k)%nat) (room f);
       written := written f ++ firstn k s |}
  else
    {| is_open := is_open f;
       badbit := badbit f;
       failbit := failbit f || badbit f;
       eofbit := eofbit f;
       room := room f;
       written := written f |}.

(** [std::ofstream f;] *)
Definition ofstream_default : ofstream :=
  {| is_open := false; badbit := false; failbit := false; eofbit := false;
     room := None; written := [] |}.

(** [f.open(path)], [ok] telling whether the file could be opened, on a
    sink with [r] bytes of room. *)
Definition ofstream_open (f : ofstream) (ok : bool) (r : option nat) : ofstream :=
  if negb (is_open f) && ok then
    {| is_open := true; badbit := false; failbit := false; eofbit := false;
       room := r; written := [] |}
  else
    {| is_open := is_open f; badbit := badbit f; failbit := true;
       eofbit := eofbit f; room := room f; written := written f |}.

(** [f.close()]: closing a stream with no open file sets [failbit]. *)
Definition ofstream_close (f : ofstream) : ofstream :=
  if is_open f then
    {| is_open := false; badbit := badbit f; failbit := failbit f;
       eofbit := eofbit f; room := room f; written := written f |}
  else
    {| is_open := false; badbit := badbit f; failbit := true;
       eofbit := eofbit f; room := room f; written := written f |}.

(** Stream objects live in a store and are passed by reference. *)
Definition stream_ref : Type := nat.
Definition streams : Type := stream_ref -> ofstream.

Definition set_stream (s : streams) (r : stream_ref) (f : ofstream) : streams :=
  fun x => if Nat.eqb x r then f else s x.

(** ** [std::vector<char>] *)

(** The vector as the writer sees it: [data()] and [size()]; its elements
    are the bytes of the store at [data() .. data() + size()). *)
Record vector_char : Type := mk_vector {
  data : Z;
  size : Z
}.

Definition vector_contents (m : memory) (v : vector_char) : list byte :=
  load_bytes m (data v) (Z.to_nat (size v)).

(** A vector the library can hand out: at most [max_size()] elements, stored
    inside the address space with a representable one-past-the-end pointer,
    and a non-null [data()] as soon as there is an element. *)
Definition wf_vector (v : vector_char) : Prop :=
  0 <= data v /\ 0 <= size v <= PTRDIFF_MAX /\ data v + size v <= SIZE_MAX
  /\ (0 < size v -> data v <> nullptr).

(** ** The writers *)

Section Writers.
Context {DM : DataModel}.

(** An argument of a fundamental type. *)
Record value : Type := Value {
  typeof : fundamental;
  object : blob (sizeof_type typeof)
}.

(** [sizeof(arg)] *)
Definition sizeof (v : value) : nat := sizeof_type (typeof v).

(** The bytes at [&arg]. *)
Definition object_repr (v : value) : list byte := blob_bytes (object v).

(** *** writeToFile *)

(** [(file.write(reinterpret_cast<const char*>(&args), sizeof(args)), ...)] *)
Fixpoint write_args (s : streams) (file : stream_ref) (args : list value) : streams :=
  match args with
  | [] => s
  | a :: rest =>
      write_args
        (set_stream s file (ostream_write (s file) (object_repr a) (sizeof a)))
        file rest
  end.

Definition writeToFile (s : streams) (file : stream_ref) (args : list value)
  : outcome streams stream_ref :=
  if fail (s file) then
    Threw (runtime_error "File stream is not open") s
  else
    Returned file (write_args s file args).

(** The writes of a pack, seen on the one stream they go to. *)
Definition write_all (f : ofstream) (args : list value) : ofstream :=
  fold_left (fun st a => ostream_write st (object_repr a) (sizeof a)) args f.

(** *** writeToRawMemory *)

(** [((std::memcpy(ptr, &args, sizeof(args)), ptr += sizeof(args)), ...)] *)
Fixpoint copy_args (m : memory) (ptr : Z) (args : list value) : Z * memory :=
  match args with
  | [] => (ptr, m)
  | a :: rest =>
      copy_args
        (memcpy m ptr (object_repr a) (sizeof a))
        (ptr_add ptr (Z.of_nat (sizeof a)))
        rest
  end.

Definition writeToRawMemory (m : memory) (buffer : Z) (args : list value)
  : outcome memory Z :=
  if buffer =? nullptr then
    Threw (runtime_error "Null buffer pointer") m
  else
    let ptr := buffer in
    let (ptr', m') := copy_args m ptr args in
    Returned ptr' m'.

(** *** writeToBuffer *)

(** [(sizeof(args) + ...)]: a unary right fold, which has no value for an
    empty pack, so the template cannot be instantiated without arguments;
    the pack is a first argument and the rest. *)
Fixpoint fold_sizeof (arg : value) (args : list value) : Z :=
  match args with
  | [] => Z.of_nat (sizeof arg)
  | a :: rest => size_t_add (Z.of_nat (sizeof arg)) (fold_sizeof a rest)
  end.

Definition writeToBuffer (m : memory) (buffer : vector_char) (offset : Z)
    (arg : value) (args : list value) : outcome memory Z :=
  let requiredSize := fold_sizeof arg args in
  if size_t_add offset requiredSize >? size buffer then
    Threw (runtime_error "Buffer too small for data") m
  else
    let ptr := ptr_add (data buffer) offset in
    match writeToRawMemory m ptr (arg :: args) with
    | Threw e m' => Threw e m'
    | Returned _ m' => Returned (size_t_add offset requiredSize) m'
    end.

(** *** Reading back *)

(** The bytes a pack occupies, and their number. *)
Definition pack_bytes (args : list value) : list byte :=
  concat (map object_repr args).

Fixpoint total_size (args : list value) : Z :=
  match args with
  | [] => 0
  | a :: rest => Z.of_nat (sizeof a) + total_size rest
  end.

(** A pack that can be passed: the arguments are objects of the call, and
    together they take no more than [PTRDIFF_MAX] bytes. *)
Definition pack_ok (arg : value) (args : list value) : Prop :=
  total_size (arg :: args) <= PTRDIFF_MAX.

(** Reinterpret [bs] as values of the types [ts], one after the other,
    each with the width of its type. *)
Fixpoint reinterpret (ts : list fundamental) (bs : list byte) : option (list value) :=
  match ts with
  | [] => Some []
  | t :: ts' =>
      match blob_of_bytes (sizeof_type t) bs with
      | None => None
      | Some (o, rest) =>
          match reinterpret ts' rest with
          | None => None
          | Some vs => Some (Value t o :: vs)
          end
      end
  end.

End Writers.

(** ** Predicates of the claims *)

(** The test of [writeToBuffer], negated: the call goes on to write. *)
Definition capacity_check_passes {DM : DataModel} (buffer : vector_char)
    (offset : Z) (arg : value) (args : list value) : bool :=
  negb (size_t_add offset (fold_sizeof arg args) >? size buffer).

(** The property "no [InvalidDestination] from the buffer writer" at one
    call, with the argument that is given for it: past the check the
    required size is at least 1, so the vector has an element, its [data()]
    is not null and neither is the pointer handed to the raw-memory writer;
    hence the call raises no [InvalidDestination], and whatever it throws
    is a [CapacityExceeded]. *)
Definition never_invalid_destination {DM : DataModel} (m : memory)
    (buffer : vector_char) (offset : Z) (arg : value) (args : list value) : Prop :=
  (capacity_check_passes buffer offset arg args = true ->
     1 <= fold_sizeof arg args /\ 0 < size buffer /\ data buffer <> nullptr
     /\ ptr_add (data buffer) offset <> nullptr)
  /\ ~ raises (writeToBuffer m buffer offset arg args) InvalidDestination
  /\ (forall e m', writeToBuffer m buffer offset arg args = Threw e m' ->
        classify e = Some CapacityExceeded).

(** ** Concrete inputs *)

(** [int x = 42;] on LP64 (little endian). *)
Definition int42 : @value LP64 := @Value LP64 TInt (x2a, (x00, (x00, (x00, tt)))).

(** [float y = 3.14f;], the IEEE 754 single 0x4048F5C3. *)
Definition float314 : @value LP64 := @Value LP64 TFloat (xc3, (xf5, (x48, (x40, tt)))).

(** A store of zero bytes. *)
Definition zero_memory : memory := fun _ => x00.

(** [std::vector<char> buffer(10);], allocated at address 4096. *)
Definition buffer10 : vector_char := {| data := 4096; size := 10 |}.

(** [std::vector<char> buffer;]: no element, and a null [data()]. *)
Definition empty_vector : vector_char := {| data := 0; size := 0 |}.

(** A stream store in which every stream is default constructed. *)
Definition unopened_streams : streams := fun _ => ofstream_default.

(** A stream store in which every stream was opened, then closed. *)
Definition closed_streams : streams :=
  fun _ => ofstream_close (ofstream_open ofstream_default true None).

(** A stream store in which every stream is open on an unlimited sink. *)
Definition open_streams : streams :=
  fun _ => ofstream_open ofstream_default true None.

(** ** Arithmetic of addresses and sizes *)

Lemma two64_pos : 0 < 2 ^ 64.
Proof. reflexivity. Qed.

Lemma ptr_add_small (p n : Z) : 0 <= p + n <= SIZE_MAX -> ptr_add p n = p + n.
Proof. unfold ptr_add, SIZE_MAX. intros H. apply Z.mod_small. lia. Qed.

Lemma size_t_add_small (a b : Z) : 0 <= a + b <= SIZE_MAX -> size_t_add a b = a + b.
Proof. unfold size_t_add, SIZE_MAX. intros H. apply Z.mod_small. lia. Qed.

Lemma ptr_add_range (p n : Z) : 0 <= ptr_add p n <= SIZE_MAX.
Proof.
  unfold ptr_add, SIZE_MAX.
  pose proof (Z.mod_pos_bound (p + n) (2 ^ 64) two64_pos). lia.
Qed.

Lemma ptr_add_assoc (p a b : Z) : ptr_add (ptr_add p a) b = ptr_add p (a + b).
Proof.
  unfold ptr_add. rewrite Zplus_mod_idemp_l. f_equal. lia.
Qed.

Lemma ptr_add_0 (p : Z) : 0 <= p <= SIZE_MAX -> ptr_add p 0 = p.
Proof. intros H. rewrite ptr_add_small; lia. Qed.

(** ** Blobs *)

Lemma blob_bytes_length (n : nat) (b : blob n) : length (blob_bytes b) = n.
Proof.
  induction n as [|k IH]; cbn; [reflexivity|].
  destruct b as [x b']. cbn. f_equal. apply IH.
Qed.

Lemma blob_of_bytes_app (n : nat) (b : blob n) (rest : list byte) :
  blob_of_bytes n (blob_bytes b ++ rest) = Some (b, rest).
Proof.
  induction n as [|k IH]; cbn.
  - destruct b. reflexivity.
  - destruct b as [x b']. cbn. rewrite IH. reflexivity.
Qed.

(** ** The store *)

Lemma store_same (m : memory) (a : Z) (b : byte) : store m a b a = b.
Proof. unfold store. rewrite Z.eqb_refl. reflexivity. Qed.

Lemma store_other (m : memory) (a x : Z) (b : byte) : x <> a -> store m a b x = m x.
Proof. unfold store. intros H. apply Z.eqb_neq in H. rewrite H. reflexivity. Qed.

Lemma store_bytes_app (m : memory) (p : Z) (xs ys : list byte) :
  0 <= p <= SIZE_MAX ->
  store_bytes m p (xs ++ ys)
  = store_bytes (store_bytes m p xs) (ptr_add p (Z.of_nat (length xs))) ys.
Proof.
  revert m p. induction xs as [|x xs IH]; intros m p Hp.
  - cbn. rewrite ptr_add_0 by assumption. reflexivity.
  - cbn [app store_bytes length]. rewrite IH by apply ptr_add_range.
    rewrite ptr_add_assoc. do 2 f_equal. lia.
Qed.

(** Bytes outside the destination range keep their value. *)
Lemma store_bytes_frame (bs : list byte) (m : memory) (p a : Z) :
  0 <= p -> p + Z.of_nat (length bs) <= 2 ^ 64 ->
  a < p \/ p + Z.of_nat (length bs) <= a ->
  store_bytes m p bs a = m a.
Proof.
  revert m p. induction bs as [|b bs IH]; intros m p Hp Hend Ha; [reflexivity|].
  cbn [store_bytes]. cbn [length] in Hend, Ha.
  destruct bs as [|b' bs'].
  - cbn. apply store_other. lia.
  - cbn [length] in *. rewrite ptr_add_small by (unfold SIZE_MAX; lia).
    rewrite IH by (cbn [length]; lia). apply store_other. lia.
Qed.

(** Reading back what was just copied. *)
Lemma load_store_bytes (bs : list byte) (m : memory) (p : Z) :
  0 <= p -> p + Z.of_nat (length bs) <= 2 ^ 64 ->
  load_bytes (store_bytes m p bs) p (length bs) = bs.
Proof.
  revert m p. induction bs as [|b bs IH]; intros m p Hp Hend; [reflexivity|].
  cbn [store_bytes length load_bytes]. cbn [length] in Hend.
  destruct bs as [|b' bs'].
  - cbn. rewrite store_same. reflexivity.
  - cbn [length] in *. rewrite ptr_add_small by (unfold SIZE_MAX; lia).
    f_equal.
    + rewrite store_bytes_frame by (cbn [length]; lia). apply store_same.
    + apply (IH (store m p b) (p + 1)); cbn [length]; lia.
Qed.

Lemma load_bytes_length (m : memory) (p : Z) (n : nat) :
  length (load_bytes m p n) = n.
Proof. revert p. induction n as [|k IH]; intros p; cbn; [|rewrite IH]; reflexivity. Qed.

Lemma load_bytes_app (m : memory) (p : Z) (a b : nat) :
  0 <= p <= SIZE_MAX ->
  load_bytes m p (a + b) = load_bytes m p a ++ load_bytes m (ptr_add p (Z.of_nat a)) b.
Proof.
  revert p. induction a as [|a IH]; intros p Hp.
  - cbn. rewrite ptr_add_0 by assumption. reflexivity.
  - cbn [Nat.add load_bytes app]. f_equal.
    rewrite IH by apply ptr_add_range. rewrite ptr_add_assoc.
    replace (1 + Z.of_nat a) with (Z.of_nat (S a)) by lia. reflexivity.
Qed.

(** Reading a range the copy did not touch. *)
Lemma load_bytes_frame (n : nat) (m : memory) (p q : Z) (bs : list byte) :
  0 <= p -> p + Z.of_nat n <= 2 ^ 64 ->
  0 <= q -> q + Z.of_nat (length bs) <= 2 ^ 64 ->
  p + Z.of_nat n <= q \/ q + Z.of_nat (length bs) <= p ->
  load_bytes (store_bytes m q bs) p n = load_bytes m p n.
Proof.
  revert p. induction n as [|k IH]; intros p Hp Hend Hq Hqend Hdisj; [reflexivity|].
  cbn [load_bytes]. f_equal.
  - apply store_bytes_frame; lia.
  - destruct k as [|k']; [reflexivity|].
    rewrite ptr_add_small by (unfold SIZE_MAX; lia).
    apply IH; lia.
Qed.

(** ** Packs of arguments *)

Section PackFacts.
Context {DM : DataModel}.

Lemma object_repr_length (v : value) : length (object_repr v) = sizeof v.
Proof. apply blob_bytes_length. Qed.

Lemma sizeof_ge_1 (v : value) : 1 <= Z.of_nat (sizeof v).
Proof. pose proof (sizeof_pos (typeof v)). unfold sizeof. lia. Qed.

Lemma total_size_nonneg (args : list value) : 0 <= total_size args.
Proof.
  induction args as [|a rest IH]; cbn [total_size]; [lia|].
  pose proof (sizeof_ge_1 a). lia.
Qed.

Lemma total_size_cons_pos (a : value) (rest : list value) : 1 <= total_size (a :: rest).
Proof.
  cbn [total_size]. pose proof (sizeof_ge_1 a). pose proof (total_size_nonneg rest). lia.
Qed.

Lemma total_size_app (xs ys : list value) :
  total_size (xs ++ ys) = total_size xs + total_size ys.
Proof. induction xs as [|x xs IH]; cbn [app total_size]; lia. Qed.

Lemma pack_bytes_cons (a : value) (rest : list value) :
  pack_bytes (a :: rest) = object_repr a ++ pack_bytes rest.
Proof. reflexivity. Qed.

Lemma pack_bytes_app (xs ys : list value) :
  pack_bytes (xs ++ ys) = pack_bytes xs ++ pack_bytes ys.
Proof. unfold pack_bytes. rewrite map_app. apply concat_app. Qed.

(** The bytes of a pack are as many as the sizes of its values add up
    to. *)
Lemma pack_bytes_length (args : list value) :
  Z.of_nat (length (pack_bytes args)) = total_size args.
Proof.
  induction args as [|a rest IH]; [reflexivity|].
  rewrite pack_bytes_cons, length_app, object_repr_length.
  cbn [total_size]. lia.
Qed.

(** [memcpy] of [sizeof(arg)] bytes from [&arg] copies the whole object
    representation. *)
Lemma memcpy_object (m : memory) (p : Z) (v : value) :
  memcpy m p (object_repr v) (sizeof v) = store_bytes m p (object_repr v).
Proof.
  unfold memcpy. rewrite <- object_repr_length, firstn_all. reflexivity.
Qed.

(** The fold of [memcpy]s is one copy of the concatenated bytes, and the
    cursor ends right behind it. *)
Lemma copy_args_spec (args : list value) (m : memory) (p : Z) :
  0 <= p <= SIZE_MAX ->
  copy_args m p args = (ptr_add p (total_size args), store_bytes m p (pack_bytes args)).
Proof.
  revert m p. induction args as [|a rest IH]; intros m p Hp.
  - cbn. rewrite ptr_add_0 by assumption. reflexivity.
  - cbn [copy_args total_size]. rewrite IH by apply ptr_add_range.
    rewrite ptr_add_assoc, memcpy_object, pack_bytes_cons.
    rewrite store_bytes_app by assumption.
    rewrite object_repr_length. reflexivity.
Qed.

(** The size accumulated by the fold is the sum of the sizes, modulo
    [2^64]. *)
Lemma fold_sizeof_spec (arg : value) (args : list value) :
  fold_sizeof arg args = total_size (arg :: args) mod 2 ^ 64.
Proof.
  revert arg. induction args as [|a rest IH]; intros arg.
  - cbn [fold_sizeof total_size]. rewrite Z.add_0_r.
    pose proof (sizeof_max (typeof arg)). pose proof (sizeof_ge_1 arg).
    unfold sizeof in *. unfold PTRDIFF_MAX in *. rewrite Z.mod_small; lia.
  - cbn [fold_sizeof]. rewrite IH. unfold size_t_add.
    rewrite Zplus_mod_idemp_r. reflexivity.
Qed.

Lemma fold_sizeof_exact (arg : value) (args : list value) :
  pack_ok arg args -> fold_sizeof arg args = total_size (arg :: args).
Proof.
  unfold pack_ok, PTRDIFF_MAX. intros H. rewrite fold_sizeof_spec.
  pose proof (total_size_cons_pos arg args). apply Z.mod_small. lia.
Qed.

(** Reading a pack back from its bytes. *)
Lemma reinterpret_pack (args : list value) (rest : list byte) :
  reinterpret (map typeof args) (pack_bytes args ++ rest) = Some args.
Proof.
  induction args as [|a args IH]; [reflexivity|].
  cbn [map reinterpret]. rewrite pack_bytes_cons, <- app_assoc.
  unfold object_repr at 1. rewrite blob_of_bytes_app, IH.
  destruct a; reflexivity.
Qed.

Lemma reinterpret_pack_exact (args : list value) :
  reinterpret (map typeof args) (pack_bytes args) = Some args.
Proof.
  rewrite <- (app_nil_r (pack_bytes args)). apply reinterpret_pack.
Qed.

End PackFacts.

(** ** Streams *)

Lemma set_stream_same (s : streams) (r : stream_ref) (f : ofstream) :
  set_stream s r f r = f.
Proof. unfold set_stream. rewrite Nat.eqb_refl. reflexivity. Qed.

Lemma set_stream_other (s : streams) (r x : stream_ref) (f : ofstream) :
  x <> r -> set_stream s r f x = s x.
Proof. unfold set_stream. intros H. apply Nat.eqb_neq in H. rewrite H. reflexivity. Qed.

Lemma accepted_le (f : ofstream) (n : nat) : (accepted f n <= n)%nat.
Proof. unfold accepted. destruct (is_open f), (room f); lia. Qed.

Lemma fail_not_good (f : ofstream) : fail f = true -> good f = false.
Proof.
  unfold fail, good. destruct (badbit f), (failbit f), (eofbit f); cbn; congruence.
Qed.

(** A failed stream stays failed, and takes nothing more. *)
Lemma ostream_write_fail (f : ofstream) (s : list byte) (n : nat) :
  fail f = true ->
  fail (ostream_write f s n) = true /\ written (ostream_write f s n) = written f.
Proof.
  intros H. unfold ostream_write. rewrite (fail_not_good f H). cbn.
  split; [|reflexivity]. unfold fail in *. cbn.
  destruct (badbit f), (failbit f); auto.
Qed.

(** A stream that is not good takes nothing and does not become good. *)
Lemma ostream_write_not_good (f : ofstream) (s : list byte) (n : nat) :
  good f = false ->
  good (ostream_write f s n) = false /\ written (ostream_write f s n) = written f.
Proof.
  intros H. unfold ostream_write. rewrite H. cbn [written].
  split; [|reflexivity]. unfold good in *. cbn.
  destruct (badbit f), (failbit f), (eofbit f); auto.
Qed.

(** A write that leaves the stream good has inserted all [n] bytes. *)
Lemma ostream_write_ok (f : ofstream) (s : list byte) (n : nat) :
  good (ostream_write f s n) = true ->
  good f = true /\ accepted f n = n
  /\ written (ostream_write f s n) = written f ++ firstn n s.
Proof.
  destruct (good f) eqn:G.
  - unfold ostream_write. rewrite G. unfold good. cbn. intros H.
    apply negb_true_iff in H. apply orb_false_iff in H. destruct H as [H _].
    apply orb_false_iff in H. destruct H as [Hb _].
    apply Nat.ltb_ge in Hb. pose proof (accepted_le f n).
    assert (E : accepted f n = n) by lia. rewrite E. auto.
  - intros H. destruct (ostream_write_not_good f s n G) as [C _]. congruence.
Qed.

(** A stream with no open file takes no byte. *)
Lemma ostream_write_closed (f : ofstream) (s : list byte) (n : nat) :
  is_open f = false ->
  is_open (ostream_write f s n) = false
  /\ written (ostream_write f s n) = written f.
Proof.
  intros H. unfold ostream_write, accepted. rewrite H.
  destruct (good f); cbn; split; auto. apply app_nil_r.
Qed.

(** On a good stream with no open file the insertion fails. *)
Lemma ostream_write_closed_fails (f : ofstream) (s : list byte) (n : nat) :
  is_open f = false -> good f = true -> (1 <= n)%nat ->
  fail (ostream_write f s n) = true.
Proof.
  intros H Hg Hn. unfold ostream_write, accepted. rewrite H, Hg.
  unfold fail; cbn. destruct n; [lia|reflexivity].
Qed.

Section StreamFacts.
Context {DM : DataModel}.

Lemma write_args_same (args : list value) (s : streams) (file : stream_ref) :
  write_args s file args file = write_all (s file) args.
Proof.
  revert s. induction args as [|a rest IH]; intros s; [reflexivity|].
  cbn [write_args]. rewrite IH, set_stream_same. reflexivity.
Qed.

(** The other streams are not touched. *)
Lemma write_args_other (args : list value) (s : streams) (file x : stream_ref) :
  x <> file -> write_args s file args x = s x.
Proof.
  intros Hx. revert s. induction args as [|a rest IH]; intros s; [reflexivity|].
  cbn [write_args]. rewrite IH. apply set_stream_other. exact Hx.
Qed.

Lemma write_all_fail (args : list value) (f : ofstream) :
  fail f = true ->
  fail (write_all f args) = true /\ written (write_all f args) = written f.
Proof.
  revert f. induction args as [|a rest IH]; intros f H; [auto|].
  unfold write_all. cbn [fold_left].
  destruct (ostream_write_fail f (object_repr a) (sizeof a) H) as [H1 H2].
  destruct (IH _ H1) as [H3 H4]. unfold write_all in H3, H4. rewrite H3, H4. auto.
Qed.

Lemma write_all_not_good (args : list value) (f : ofstream) :
  good f = false ->
  good (write_all f args) = false /\ written (write_all f args) = written f.
Proof.
  revert f. induction args as [|a rest IH]; intros f H; [auto|].
  unfold write_all. cbn [fold_left].
  destruct (ostream_write_not_good f (object_repr a) (sizeof a) H) as [H1 H2].
  destruct (IH _ H1) as [H3 H4]. unfold write_all in H3, H4. rewrite H3, H4. auto.
Qed.

(** When the stream is good after the pack, it has taken every byte of
    every value, in order. *)
Lemma write_all_ok (args : list value) (f : ofstream) :
  good (write_all f args) = true ->
  written (write_all f args) = written f ++ pack_bytes args.
Proof.
  revert f. induction args as [|a rest IH]; intros f H.
  - cbn. symmetry. apply app_nil_r.
  - unfold write_all in *. cbn [fold_left] in *.
    set (f1 := ostream_write f (object_repr a) (sizeof a)) in *.
    destruct (good f1) eqn:G1.
    + destruct (ostream_write_ok _ _ _ G1) as (_ & _ & W). fold f1 in W.
      rewrite (IH f1 H), W, pack_bytes_cons, <- app_assoc.
      rewrite <- object_repr_length, firstn_all. reflexivity.
    + destruct (write_all_not_good rest f1 G1) as [C _]. unfold write_all in C.
      congruence.
Qed.

(** With no open file, nothing is appended, whatever the pack. *)
Lemma write_all_closed (args : list value) (f : ofstream) :
  is_open f = false ->
  is_open (write_all f args) = false /\ written (write_all f args) = written f.
Proof.
  revert f. induction args as [|a rest IH]; intros f H; [auto|].
  unfold write_all. cbn [fold_left].
  destruct (ostream_write_closed f (object_repr a) (sizeof a) H) as [H1 H2].
  destruct (IH _ H1) as [H3 H4]. unfold write_all in H3, H4. rewrite H3, H4. auto.
Qed.

(** An open, good stream on an unlimited sink takes the whole pack and
    stays good. *)
Lemma write_all_open_unlimited (args : list value) (f : ofstream) :
  is_open f = true -> good f = true -> room f = None ->
  good (write_all f args) = true
  /\ written (write_all f args) = written f ++ pack_bytes args.
Proof.
  revert f. induction args as [|a rest IH]; intros f Ho Hg Hr.
  - cbn. split; [exact Hg|]. symmetry. apply app_nil_r.
  - unfold write_all in *. cbn [fold_left].
    set (f1 := ostream_write f (object_repr a) (sizeof a)).
    assert (E : f1 = {| is_open := true; badbit := false; failbit := failbit f;
                        eofbit := eofbit f; room := None;
                        written := written f ++ object_repr a |}).
    { unfold f1, ostream_write, accepted. rewrite Hg, Ho, Hr. cbv zeta.
      rewrite Nat.ltb_irrefl, <- object_repr_length, firstn_all. reflexivity. }
    assert (Hg1 : good f1 = true).
    { rewrite E. unfold good in *. cbn. destruct (badbit f); [discriminate|exact Hg]. }
    destruct (IH f1) as [G W]; try (rewrite E; reflexivity); [exact Hg1|].
    split; [exact G|].
    rewrite W, E. cbn [written]. rewrite pack_bytes_cons, app_assoc. reflexivity.
Qed.

End StreamFacts.

(** ** Lists *)

Lemma firstn_app_exact {A : Type} (xs ys : list A) (n : nat) :
  length xs = n -> firstn n (xs ++ ys) = xs.
Proof.
  intros <-. rewrite firstn_app, firstn_all, Nat.sub_diag, firstn_O. apply app_nil_r.
Qed.

Lemma skipn_app_exact {A : Type} (xs ys : list A) (n : nat) :
  length xs = n -> skipn n (xs ++ ys) = ys.
Proof.
  intros <-. rewrite skipn_app, skipn_all, Nat.sub_diag, skipn_O. reflexivity.
Qed.

(** ** Reading the destination after a copy *)

(** A block stored in the middle of what was copied is found where the
    blocks before it end. *)
Lemma load_store_middle (m : memory) (p : Z) (xs ys zs : list byte) :
  0 <= p -> p + Z.of_nat (length (xs ++ ys ++ zs)) <= SIZE_MAX ->
  load_bytes (store_bytes m p (xs ++ ys ++ zs)) (p + Z.of_nat (length xs)) (length ys) = ys.
Proof.
  intros Hp Hend. rewrite !length_app in Hend. unfold SIZE_MAX in Hend.
  rewrite store_bytes_app by (unfold SIZE_MAX; lia).
  rewrite ptr_add_small by (unfold SIZE_MAX; lia).
  rewrite store_bytes_app by (unfold SIZE_MAX; lia).
  rewrite ptr_add_small by (unfold SIZE_MAX; lia).
  rewrite load_bytes_frame by lia.
  apply load_store_bytes; lia.
Qed.

(** A range of [off + length bs + rest] bytes at [p], after [bs] was stored
    [off] bytes into it. *)
Lemma load_bytes_store_inside (m : memory) (p : Z) (off rest : nat) (bs : list byte) :
  0 <= p -> p + Z.of_nat (off + (length bs + rest)) <= SIZE_MAX ->
  load_bytes (store_bytes m (p + Z.of_nat off) bs) p (off + (length bs + rest))
  = load_bytes m p off ++ bs
    ++ load_bytes m (p + Z.of_nat off + Z.of_nat (length bs)) rest.
Proof.
  intros Hp Hend. unfold SIZE_MAX in Hend.
  rewrite load_bytes_app by (unfold SIZE_MAX; lia).
  rewrite ptr_add_small by (unfold SIZE_MAX; lia).
  rewrite load_bytes_app by (unfold SIZE_MAX; lia).
  rewrite ptr_add_small by (unfold SIZE_MAX; lia).
  rewrite load_bytes_frame by lia.
  rewrite load_store_bytes by lia.
  rewrite load_bytes_frame by lia.
  reflexivity.
Qed.

Lemma load_bytes_split3 (m : memory) (p : Z) (a b c : nat) :
  0 <= p -> p + Z.of_nat (a + (b + c)) <= SIZE_MAX ->
  load_bytes m p (a + (b + c))
  = load_bytes m p a ++ load_bytes m (p + Z.of_nat a) b
    ++ load_bytes m (p + Z.of_nat a + Z.of_nat b) c.
Proof.
  intros Hp Hend. unfold SIZE_MAX in Hend.
  rewrite load_bytes_app by (unfold SIZE_MAX; lia).
  rewrite ptr_add_small by (unfold SIZE_MAX; lia).
  rewrite load_bytes_app by (unfold SIZE_MAX; lia).
  rewrite ptr_add_small by (unfold SIZE_MAX; lia).
  reflexivity.
Qed.

(** ** The raw-memory writer *)

Section RawMemory.
Context {DM : DataModel}.

(** On a non-null pointer the writer returns, with the pack stored at the
    pointer and the cursor moved past it. *)
Lemma writeToRawMemory_nonnull (m : memory) (buffer : Z) (args : list value) :
  buffer <> nullptr -> 0 <= buffer <= SIZE_MAX ->
  writeToRawMemory m buffer args
  = Returned (ptr_add buffer (total_size args)) (store_bytes m buffer (pack_bytes args)).
Proof.
  intros Hnn Hr. unfold writeToRawMemory.
  apply Z.eqb_neq in Hnn. rewrite Hnn.
  rewrite copy_args_spec by assumption. reflexivity.
Qed.

(** C6. [writeToRawMemory] on the null pointer throws "Null buffer pointer",
    an [InvalidDestination] failure, whatever the values are; the throw
    comes before the first [memcpy], so the store it leaves is the store it
    was given. *)
Theorem writeToRawMemory_null_rejected (m : memory) (args : list value) :
  writeToRawMemory m nullptr args = Threw (runtime_error "Null buffer pointer") m
  /\ raises (writeToRawMemory m nullptr args) InvalidDestination.
Proof.
  split; reflexivity.
Qed.

(** C5. For a non-null destination whose range lies in the address space,
    [writeToRawMemory] returns the destination address plus the sum of the
    sizes of the values.  The destination then holds the values in argument
    order: the bytes from the destination on are the concatenated object
    representations, each value sits right after the values before it, and
    no byte outside the range has changed. *)
Theorem writeToRawMemory_copies_in_order (m : memory) (buffer : Z) (args : list value) :
  buffer <> nullptr -> 0 <= buffer -> buffer + total_size args <= SIZE_MAX ->
  exists m',
    writeToRawMemory m buffer args = Returned (buffer + total_size args) m'
    /\ load_bytes m' buffer (length (pack_bytes args)) = pack_bytes args
    /\ (forall pre v post, args = pre ++ v :: post ->
          load_bytes m' (buffer + total_size pre) (sizeof v) = object_repr v)
    /\ (forall a, a < buffer \/ buffer + total_size args <= a -> m' a = m a).
Proof.
  intros Hnn Hlo Hhi. pose proof (total_size_nonneg args) as Hts.
  exists (store_bytes m buffer (pack_bytes args)).
  assert (Hlen := pack_bytes_length args). unfold SIZE_MAX in Hhi.
  split; [|split; [|split]].
  - rewrite writeToRawMemory_nonnull by (unfold SIZE_MAX; lia).
    rewrite ptr_add_small by (unfold SIZE_MAX; lia). reflexivity.
  - apply load_store_bytes; lia.
  - intros pre v post ->.
    rewrite pack_bytes_app, pack_bytes_cons in *.
    rewrite <- pack_bytes_length, <- object_repr_length.
    apply load_store_middle; [lia|unfold SIZE_MAX; lia].
  - intros a Ha. apply store_bytes_frame; lia.
Qed.

End RawMemory.

(** ** The buffer writer *)

Section Buffer.
Context {DM : DataModel}.

(** With the offset inside the vector, the sum formed by the capacity check
    does not wrap. *)
Lemma capacity_sum_exact (buffer : vector_char) (offset : Z) (arg : value) (args : list value) :
  wf_vector buffer -> pack_ok arg args -> 0 <= offset <= size buffer ->
  size_t_add offset (fold_sizeof arg args) = offset + total_size (arg :: args).
Proof.
  intros (_ & Hs & _) Hp Ho. rewrite fold_sizeof_exact by assumption.
  unfold pack_ok in Hp. pose proof (total_size_cons_pos arg args).
  unfold PTRDIFF_MAX in *. apply size_t_add_small. unfold SIZE_MAX. lia.
Qed.

Lemma writeToBuffer_exceeds (m : memory) (buffer : vector_char) (offset : Z)
    (arg : value) (args : list value) :
  wf_vector buffer -> pack_ok arg args -> 0 <= offset <= size buffer ->
  offset + total_size (arg :: args) > size buffer ->
  writeToBuffer m buffer offset arg args
  = Threw (runtime_error "Buffer too small for data") m.
Proof.
  intros Hwf Hp Ho Hbig. unfold writeToBuffer. cbv zeta.
  rewrite (capacity_sum_exact buffer) by assumption.
  rewrite Z.gtb_ltb. destruct (Z.ltb_spec (size buffer) (offset + total_size (arg :: args))).
  - reflexivity.
  - lia.
Qed.

(** The same for any offset whose sum with the required size does not
    wrap. *)
Lemma writeToBuffer_exceeds_no_wrap (m : memory) (buffer : vector_char) (offset : Z)
    (arg : value) (args : list value) :
  pack_ok arg args -> 0 <= offset ->
  offset + total_size (arg :: args) <= SIZE_MAX ->
  offset + total_size (arg :: args) > size buffer ->
  writeToBuffer m buffer offset arg args
  = Threw (runtime_error "Buffer too small for data") m.
Proof.
  intros Hp Ho Hnw Hbig. pose proof (total_size_cons_pos arg args) as Hpos.
  unfold writeToBuffer. cbv zeta.
  rewrite fold_sizeof_exact by assumption.
  rewrite size_t_add_small by lia.
  rewrite Z.gtb_ltb. destruct (Z.ltb_spec (size buffer) (offset + total_size (arg :: args))).
  - reflexivity.
  - lia.
Qed.

Lemma writeToBuffer_fits (m : memory) (buffer : vector_char) (offset : Z)
    (arg : value) (args : list value) :
  wf_vector buffer -> pack_ok arg args -> 0 <= offset <= size buffer ->
  offset + total_size (arg :: args) <= size buffer ->
  writeToBuffer m buffer offset arg args
  = Returned (offset + total_size (arg :: args))
      (store_bytes m (data buffer + offset) (pack_bytes (arg :: args))).
Proof.
  intros Hwf Hp Ho Hfit. unfold writeToBuffer. cbv zeta.
  rewrite (capacity_sum_exact buffer) by assumption.
  destruct Hwf as (Hd & Hs & He & Hnn).
  pose proof (total_size_cons_pos arg args) as Hpos.
  rewrite Z.gtb_ltb. destruct (Z.ltb_spec (size buffer) (offset + total_size (arg :: args))).
  - lia.
  - rewrite ptr_add_small by lia.
    assert (data buffer <> 0) by (apply Hnn; lia).
    rewrite writeToRawMemory_nonnull by (unfold nullptr; lia).
    reflexivity.
Qed.

(** Whatever the offset, an offset that is returned has passed the check:
    it is at most the size of the vector. *)
Lemma writeToBuffer_result_within_size (m m' : memory) (buffer : vector_char)
    (offset r : Z) (arg : value) (args : list value) :
  writeToBuffer m buffer offset arg args = Returned r m' -> r <= size buffer.
Proof.
  unfold writeToBuffer. cbv zeta.
  destruct (size_t_add offset (fold_sizeof arg args) >? size buffer) eqn:E;
    [discriminate|].
  destruct (writeToRawMemory m (ptr_add (data buffer) offset) (arg :: args));
    [|discriminate].
  intros [= <- _]. rewrite Z.gtb_ltb in E. apply Z.ltb_ge in E. exact E.
Qed.

(** What a successful call leaves in the vector: the bytes before the
    offset, the pack, the bytes after it. *)
Lemma writeToBuffer_contents (m : memory) (buffer : vector_char) (offset : Z)
    (arg : value) (args : list value) :
  wf_vector buffer -> 0 <= offset ->
  offset + total_size (arg :: args) <= size buffer ->
  vector_contents
    (store_bytes m (data buffer + offset) (pack_bytes (arg :: args))) buffer
  = firstn (Z.to_nat offset) (vector_contents m buffer)
    ++ pack_bytes (arg :: args)
    ++ skipn (Z.to_nat (offset + total_size (arg :: args))) (vector_contents m buffer).
Proof.
  intros (Hd & Hs & He & _) Ho Hfit. unfold vector_contents.
  pose proof (total_size_cons_pos arg args) as Hpos.
  pose proof (pack_bytes_length (arg :: args)) as Hlen.
  set (bs := pack_bytes (arg :: args)) in *.
  set (off := Z.to_nat offset).
  set (rest := Z.to_nat (size buffer - offset - total_size (arg :: args))).
  assert (Hsz : Z.to_nat (size buffer) = (off + (length bs + rest))%nat)
    by (unfold off, rest; lia).
  assert (Hsk : Z.to_nat (offset + total_size (arg :: args)) = (off + length bs)%nat)
    by (unfold off; lia).
  assert (Hoff : offset = Z.of_nat off) by (unfold off; lia).
  rewrite Hsz, Hsk, Hoff.
  rewrite load_bytes_store_inside by lia.
  rewrite load_bytes_split3 by lia.
  rewrite firstn_app_exact by apply load_bytes_length.
  rewrite (app_assoc (load_bytes m (data buffer) off)
             (load_bytes m (data buffer + Z.of_nat off) (length bs))).
  rewrite skipn_app_exact by (rewrite length_app, !load_bytes_length; reflexivity).
  reflexivity.
Qed.

End Buffer.

(** ** Claims on the buffer writer *)

Section BufferClaims.
Context {DM : DataModel}.

(** C1. For a well-formed vector, an offset inside it ([0 <= offset <=
    size]) and a non-empty pack: when the offset plus the summed sizes
    exceeds the size of the vector, [writeToBuffer] throws "Buffer too small
    for data", a [CapacityExceeded] failure, and the store it leaves is the
    store it was given, so no byte of the vector has changed.  A pack of
    exactly [size - offset] bytes is written, and a pack of
    [size - offset + 1] bytes is rejected in the same way. *)
Theorem writeToBuffer_capacity_boundary (m : memory) (buffer : vector_char)
    (offset : Z) (arg : value) (args : list value) :
  wf_vector buffer -> pack_ok arg args -> 0 <= offset <= size buffer ->
  (offset + total_size (arg :: args) > size buffer ->
     writeToBuffer m buffer offset arg args
     = Threw (runtime_error "Buffer too small for data") m
     /\ raises (writeToBuffer m buffer offset arg args) CapacityExceeded)
  /\ (total_size (arg :: args) = size buffer - offset ->
        returns (writeToBuffer m buffer offset arg args))
  /\ (total_size (arg :: args) = size buffer - offset + 1 ->
        writeToBuffer m buffer offset arg args
        = Threw (runtime_error "Buffer too small for data") m).
Proof.
  intros Hwf Hp Ho. split; [|split].
  - intros Hbig. rewrite writeToBuffer_exceeds by assumption.
    split; reflexivity.
  - intros Heq. rewrite writeToBuffer_fits by (assumption || lia). exact I.
  - intros Heq. apply writeToBuffer_exceeds; try assumption. lia.
Qed.

(** C3. For a well-formed vector, an offset inside it and a non-empty pack
    that fits ([offset + required <= size]), [writeToBuffer] returns, and
    the offset it returns is [offset + required]; an offset returned by
    this call is at most the size of the vector. *)
Theorem writeToBuffer_returns_new_offset (m : memory) (buffer : vector_char)
    (offset : Z) (arg : value) (args : list value) :
  wf_vector buffer -> pack_ok arg args -> 0 <= offset <= size buffer ->
  offset + total_size (arg :: args) <= size buffer ->
  (exists m',
     writeToBuffer m buffer offset arg args
     = Returned (offset + total_size (arg :: args)) m')
  /\ (forall new_offset m',
        writeToBuffer m buffer offset arg args = Returned new_offset m' ->
        new_offset = offset + total_size (arg :: args)
        /\ new_offset <= size buffer).
Proof.
  intros Hwf Hp Ho Hfit. split.
  - exists (store_bytes m (data buffer + offset) (pack_bytes (arg :: args))).
    apply writeToBuffer_fits; assumption.
  - intros new_offset m' Hcall. split.
    + rewrite writeToBuffer_fits in Hcall by assumption.
      injection Hcall as <- _. reflexivity.
    + apply (writeToBuffer_result_within_size m m' buffer offset new_offset arg args Hcall).
Qed.

(** Where the sum of the capacity check does not wrap
    ([offset + required <= SIZE_MAX], which holds of every offset inside
    the vector), [writeToBuffer] raises no [InvalidDestination]: past the
    check the required size is at least 1, the vector has an element, its
    [data()] and the pointer passed on are not null; the only failure is
    [CapacityExceeded]. *)
Lemma writeToBuffer_never_invalid_destination (m : memory) (buffer : vector_char)
    (offset : Z) (arg : value) (args : list value) :
  wf_vector buffer -> pack_ok arg args -> 0 <= offset ->
  offset + total_size (arg :: args) <= SIZE_MAX ->
  never_invalid_destination m buffer offset arg args.
Proof.
  intros Hwf Hp Ho Hnw. pose proof (total_size_cons_pos arg args) as Hpos.
  unfold never_invalid_destination. split; [|split].
  - unfold capacity_check_passes.
    rewrite fold_sizeof_exact by assumption.
    rewrite size_t_add_small by lia.
    rewrite Z.gtb_ltb, negb_true_iff, Z.ltb_ge. intros Hfit.
    destruct Hwf as (Hd & Hs & He & Hnn).
    assert (data buffer <> 0) by (apply Hnn; lia).
    repeat split; try lia; try assumption.
    rewrite ptr_add_small by lia. unfold nullptr. lia.
  - destruct (Z_le_gt_dec (offset + total_size (arg :: args)) (size buffer)) as [Hfit|Hbig].
    + rewrite writeToBuffer_fits by (assumption || lia). intros [].
    + rewrite writeToBuffer_exceeds_no_wrap by assumption. cbn. discriminate.
  - intros e m'.
    destruct (Z_le_gt_dec (offset + total_size (arg :: args)) (size buffer)) as [Hfit|Hbig].
    + rewrite writeToBuffer_fits by (assumption || lia). discriminate.
    + rewrite writeToBuffer_exceeds_no_wrap by assumption. intros [= <- _]. reflexivity.
Qed.

(** C8, what the code does.  The sum of the capacity check wraps, so the
    check can pass on a vector without room: on the empty vector, with
    offset [2^64 - sizeof(arg)] and the one value [arg], the required size
    exceeds what is left ([offset + required > size]), yet the sum is 0 and
    the check passes.  No [CapacityExceeded] is raised, although the vector
    has no element and its [data()] is null: past the check the vector
    need not be non-empty. *)
Theorem writeToBuffer_check_passes_on_empty_vector (m : memory) (arg : value) :
  wf_vector empty_vector
  /\ pack_ok arg []
  /\ 0 <= 2 ^ 64 - Z.of_nat (sizeof arg) <= SIZE_MAX
  /\ 2 ^ 64 - Z.of_nat (sizeof arg) + total_size [arg] > size empty_vector
  /\ capacity_check_passes empty_vector (2 ^ 64 - Z.of_nat (sizeof arg)) arg [] = true
  /\ size empty_vector = 0
  /\ data empty_vector = nullptr
  /\ ~ raises (writeToBuffer m empty_vector (2 ^ 64 - Z.of_nat (sizeof arg)) arg [])
        CapacityExceeded
  /\ ~ never_invalid_destination m empty_vector (2 ^ 64 - Z.of_nat (sizeof arg)) arg [].
Proof.
  pose proof (sizeof_ge_1 arg) as Hlo. pose proof (sizeof_max (typeof arg)) as Hhi.
  fold (sizeof arg) in Hhi. unfold PTRDIFF_MAX in Hhi.
  set (n := Z.of_nat (sizeof arg)) in *.
  assert (Hsum : size_t_add (2 ^ 64 - n) (fold_sizeof arg []) = 0).
  { cbn [fold_sizeof]. fold n. unfold size_t_add.
    replace (2 ^ 64 - n + n) with (2 ^ 64) by lia. reflexivity. }
  assert (Hpass : capacity_check_passes empty_vector (2 ^ 64 - n) arg [] = true).
  { unfold capacity_check_passes. rewrite Hsum. reflexivity. }
  split; [unfold wf_vector, empty_vector, PTRDIFF_MAX, SIZE_MAX; cbn [data size]; lia|].
  split; [unfold pack_ok, PTRDIFF_MAX; cbn [total_size]; fold n; lia|].
  split; [unfold SIZE_MAX; lia|].
  split; [cbn [total_size size empty_vector]; fold n; lia|].
  split; [exact Hpass|]. split; [reflexivity|]. split; [reflexivity|].
  split.
  - unfold writeToBuffer. cbv zeta. rewrite Hsum. cbn [size empty_vector].
    change (0 >? 0) with false. cbv iota.
    unfold writeToRawMemory.
    destruct (ptr_add (data empty_vector) (2 ^ 64 - n) =? nullptr).
    + cbn. discriminate.
    + destruct (copy_args m (ptr_add (data empty_vector) (2 ^ 64 - n)) [arg]).
      intros [].
  - intros (Hchain & _). destruct (Hchain Hpass) as (_ & Hsize & _).
    cbn in Hsize. lia.
Qed.

(** C9.  The sum [offset + requiredSize] of the capacity check is taken
    modulo [2^64].  For every value there are a well-formed vector and an
    offset larger than its size, [2^64 - sizeof(value)], for which the sum
    wraps to 0 and the check passes: [writeToBuffer] raises no
    [CapacityExceeded], it returns offset 0 after copying the value to the
    bytes in front of the vector's storage. *)
Theorem writeToBuffer_check_wraps (m : memory) (arg : value) :
  exists (buffer : vector_char) (offset : Z),
    wf_vector buffer
    /\ size buffer < offset <= SIZE_MAX
    /\ size_t_add offset (fold_sizeof arg []) = 0
    /\ ~ raises (writeToBuffer m buffer offset arg []) CapacityExceeded
    /\ writeToBuffer m buffer offset arg []
       = Returned 0
           (store_bytes m (data buffer - Z.of_nat (sizeof arg)) (object_repr arg)).
Proof.
  pose proof (sizeof_ge_1 arg) as Hlo. pose proof (sizeof_max (typeof arg)) as Hhi.
  fold (sizeof arg) in Hhi. unfold PTRDIFF_MAX in Hhi.
  set (n := Z.of_nat (sizeof arg)) in *.
  exists {| data := n + 4096; size := 16 |}, (2 ^ 64 - n).
  assert (Hsum : size_t_add (2 ^ 64 - n) (fold_sizeof arg []) = 0).
  { cbn [fold_sizeof]. fold n. unfold size_t_add.
    replace (2 ^ 64 - n + n) with (2 ^ 64) by lia. reflexivity. }
  assert (Hptr : ptr_add (n + 4096) (2 ^ 64 - n) = 4096).
  { unfold ptr_add. replace (n + 4096 + (2 ^ 64 - n)) with (4096 + 1 * 2 ^ 64) by lia.
    rewrite Z.mod_add by lia. reflexivity. }
  assert (Hcall : writeToBuffer m {| data := n + 4096; size := 16 |} (2 ^ 64 - n) arg []
                  = Returned 0 (store_bytes m 4096 (object_repr arg))).
  { unfold writeToBuffer. cbv zeta. rewrite Hsum. cbn [data size]. rewrite Hptr.
    cbn. rewrite memcpy_object. reflexivity. }
  split; [|split; [|split; [|split]]].
  - unfold wf_vector, SIZE_MAX, PTRDIFF_MAX, nullptr. cbn [data size]. lia.
  - unfold SIZE_MAX. cbn [size]. lia.
  - exact Hsum.
  - rewrite Hcall. intros [].
  - rewrite Hcall. cbn [data]. do 2 f_equal. lia.
Qed.

End BufferClaims.

(** The wrapped check on the vector of 10 bytes: with offset [2^64 - 4] an
    [int] is accepted, offset 0 is returned, and the four bytes in front of
    the storage (addresses 4092 to 4095) are overwritten. *)
Example wrapped_offset_writes_before_vector :
  exists m',
    writeToBuffer zero_memory buffer10 (2 ^ 64 - 4) int42 [] = Returned 0 m'
    /\ load_bytes m' 4092 4 = [x2a; x00; x00; x00]
    /\ vector_contents m' buffer10 = vector_contents zero_memory buffer10.
Proof. eexists. split; [reflexivity|]. split; reflexivity. Qed.

(** ** Claims on the stream writer and on empty packs *)

Section StreamClaims.
Context {DM : DataModel}.

(** A stream in a failed state is rejected before anything is written. *)
Lemma writeToFile_failed_rejected (s : streams) (file : stream_ref) (args : list value) :
  fail (s file) = true ->
  writeToFile s file args = Threw (runtime_error "File stream is not open") s.
Proof. intros H. unfold writeToFile. rewrite H. reflexivity. Qed.

Lemma writeToFile_unfailed_returns (s : streams) (file : stream_ref) (args : list value) :
  fail (s file) = false ->
  writeToFile s file args = Returned file (write_args s file args).
Proof. intros H. unfold writeToFile. rewrite H. reflexivity. Qed.

(** On an open, good stream with an unlimited sink the call succeeds: it
    returns the stream, still good, with the pack appended. *)
Lemma writeToFile_open_succeeds (s : streams) (file : stream_ref) (args : list value) :
  is_open (s file) = true -> good (s file) = true -> room (s file) = None ->
  exists s',
    writeToFile s file args = Returned file s'
    /\ good (s' file) = true
    /\ written (s' file) = written (s file) ++ pack_bytes args
    /\ (forall x, x <> file -> s' x = s x).
Proof.
  intros Ho Hg Hr. exists (write_args s file args).
  assert (Hf : fail (s file) = false).
  { unfold good, fail in *. destruct (badbit (s file)), (failbit (s file)); auto. }
  rewrite writeToFile_unfailed_returns by exact Hf.
  rewrite write_args_same.
  destruct (write_all_open_unlimited args (s file) Ho Hg Hr) as [G W].
  split; [reflexivity|]. split; [exact G|]. split; [exact W|].
  intros x Hx. apply write_args_other. exact Hx.
Qed.

(** C2, what the code does.  The test [!file] reads the state bits, not
    [is_open()]: on a stream with no open file and neither [badbit] nor
    [failbit] set (never opened, or opened and closed again)
    [writeToFile] does not throw.  It returns the stream, to which no byte
    was appended; when the stream was good and there is at least one
    value, the stream comes back failed. *)
Theorem writeToFile_not_open_not_rejected (s : streams) (file : stream_ref)
    (args : list value) :
  is_open (s file) = false -> fail (s file) = false ->
  exists s',
    writeToFile s file args = Returned file s'
    /\ ~ raises (writeToFile s file args) InvalidDestination
    /\ written (s' file) = written (s file)
    /\ (good (s file) = true -> args <> [] -> fail (s' file) = true).
Proof.
  intros Hclosed Hok. exists (write_args s file args).
  rewrite writeToFile_unfailed_returns by assumption.
  rewrite write_args_same.
  split; [reflexivity|split; [intros []|split]].
  - apply write_all_closed. exact Hclosed.
  - intros Hg. destruct args as [|a rest]; [congruence|]. intros _.
    unfold write_all. cbn [fold_left].
    apply (write_all_fail rest).
    apply ostream_write_closed_fails; [exact Hclosed|exact Hg|apply sizeof_pos].
Qed.

(** C10, what the code does.  Without values too the test is [!file]: on a
    stream with no open file and neither [badbit] nor [failbit] set,
    [writeToFile] with an empty pack raises nothing; it returns the stream
    reference and leaves the streams as they were. *)
Theorem writeToFile_empty_pack_not_open_returns (s : streams) (file : stream_ref) :
  is_open (s file) = false -> fail (s file) = false ->
  writeToFile s file [] = Returned file s
  /\ ~ raises (writeToFile s file []) InvalidDestination.
Proof.
  intros _ Hok. rewrite writeToFile_unfailed_returns by assumption.
  cbn [write_args]. split; [reflexivity|intros []].
Qed.

(** Without values, [writeToRawMemory] on a non-null pointer returns that
    pointer and the store as it was, and [writeToFile] on an unfailed
    stream returns the same stream reference and the streams as they were;
    the destination test comes first all the same, so a null pointer and a
    failed stream are rejected with an [InvalidDestination] failure. *)
Lemma empty_pack_checks_destination_only (m : memory) (p : Z)
    (s : streams) (file : stream_ref) :
  writeToRawMemory m p []
  = (if p =? nullptr then Threw (runtime_error "Null buffer pointer") m
     else Returned p m)
  /\ writeToFile s file []
     = (if fail (s file) then Threw (runtime_error "File stream is not open") s
        else Returned file s)
  /\ classify (runtime_error "Null buffer pointer") = Some InvalidDestination
  /\ classify (runtime_error "File stream is not open") = Some InvalidDestination.
Proof.
  split; [|split; [|split]]; reflexivity.
Qed.

End StreamClaims.

(** ** Layout and round trip *)

Section LayoutClaims.
Context {DM : DataModel}.

(** What a call that returned has stored, for each destination. *)

Lemma writeToFile_appended (s s' : streams) (file r : stream_ref) (args : list value) :
  writeToFile s file args = Returned r s' -> good (s' file) = true ->
  r = file /\ written (s' file) = written (s file) ++ pack_bytes args.
Proof.
  unfold writeToFile. destruct (fail (s file)); [discriminate|].
  intros [= <- <-]. rewrite write_args_same. intros H.
  split; [reflexivity|]. apply write_all_ok. exact H.
Qed.

Lemma writeToRawMemory_stored (m m' : memory) (buffer p : Z) (args : list value) :
  0 <= buffer -> buffer + total_size args <= SIZE_MAX ->
  writeToRawMemory m buffer args = Returned p m' ->
  p = buffer + total_size args
  /\ load_bytes m' buffer (Z.to_nat (total_size args)) = pack_bytes args.
Proof.
  intros Hlo Hhi. pose proof (total_size_nonneg args) as Hts.
  destruct (Z.eq_dec buffer nullptr) as [->|Hnn]; [discriminate|].
  rewrite writeToRawMemory_nonnull by lia.
  rewrite ptr_add_small by lia. intros [= <- <-].
  split; [reflexivity|].
  rewrite <- pack_bytes_length, Nat2Z.id.
  apply load_store_bytes; [lia|]. rewrite pack_bytes_length. unfold SIZE_MAX in Hhi. lia.
Qed.

Lemma writeToBuffer_stored (m m' : memory) (buffer : vector_char) (offset r : Z)
    (arg : value) (args : list value) :
  wf_vector buffer -> pack_ok arg args -> 0 <= offset <= size buffer ->
  writeToBuffer m buffer offset arg args = Returned r m' ->
  r = offset + total_size (arg :: args)
  /\ r <= size buffer
  /\ vector_contents m' buffer
     = firstn (Z.to_nat offset) (vector_contents m buffer)
       ++ pack_bytes (arg :: args)
       ++ skipn (Z.to_nat r) (vector_contents m buffer).
Proof.
  intros Hwf Hp Ho.
  destruct (Z_le_gt_dec (offset + total_size (arg :: args)) (size buffer)) as [Hfit|Hbig].
  - rewrite writeToBuffer_fits by assumption. intros [= <- <-].
    split; [reflexivity|split; [exact Hfit|]].
    apply writeToBuffer_contents; [assumption|lia|assumption].
  - rewrite writeToBuffer_exceeds by assumption. discriminate.
Qed.

(** The part of a vector a pack was written to. *)
Lemma written_slice (old : list byte) (bs : list byte) (offset n : Z) (tl : list byte) :
  0 <= offset <= Z.of_nat (length old) -> Z.of_nat (length bs) = n ->
  firstn (Z.to_nat n)
    (skipn (Z.to_nat offset) (firstn (Z.to_nat offset) old ++ bs ++ tl))
  = bs.
Proof.
  intros Ho Hn.
  rewrite skipn_app_exact by (rewrite length_firstn; lia).
  apply firstn_app_exact. lia.
Qed.

(** C7.  A write that succeeds stores the concatenation of the object
    representations of the values, in argument order, and nothing else: no
    padding between values, no prefix.  On a stream (the call returns and
    the stream is [good()] afterwards) these bytes are appended to what
    the stream had taken; in raw memory they are the bytes from the
    destination on; in a vector they replace the bytes from the offset on,
    the bytes before and after keeping their value.  Their number is the
    sum of [sizeof] over the values, and so is the distance the cursor
    moved. *)
Theorem write_stores_concatenation :
  (forall (s s' : streams) (file r : stream_ref) (args : list value),
      writeToFile s file args = Returned r s' -> good (s' file) = true ->
      written (s' file) = written (s file) ++ concat (map object_repr args))
  /\ (forall (m m' : memory) (buffer p : Z) (args : list value),
        0 <= buffer -> buffer + total_size args <= SIZE_MAX ->
        writeToRawMemory m buffer args = Returned p m' ->
        load_bytes m' buffer (Z.to_nat (total_size args)) = concat (map object_repr args)
        /\ p - buffer = total_size args)
  /\ (forall (m m' : memory) (buffer : vector_char) (offset r : Z)
             (arg : value) (args : list value),
        wf_vector buffer -> pack_ok arg args -> 0 <= offset <= size buffer ->
        writeToBuffer m buffer offset arg args = Returned r m' ->
        vector_contents m' buffer
        = firstn (Z.to_nat offset) (vector_contents m buffer)
          ++ concat (map object_repr (arg :: args))
          ++ skipn (Z.to_nat r) (vector_contents m buffer)
        /\ r - offset = total_size (arg :: args))
  /\ (forall args : list value,
        Z.of_nat (length (concat (map object_repr args)))
        = fold_right Z.add 0 (map (fun v => Z.of_nat (sizeof v)) args)
        /\ total_size args
           = fold_right Z.add 0 (map (fun v => Z.of_nat (sizeof v)) args)).
Proof.
  split; [|split; [|split]].
  - intros s s' file r args Hcall Hok.
    apply (writeToFile_appended s s' file r args Hcall Hok).
  - intros m m' buffer p args Hlo Hhi Hcall.
    destruct (writeToRawMemory_stored m m' buffer p args Hlo Hhi Hcall) as [-> Hload].
    split; [exact Hload|lia].
  - intros m m' buffer offset r arg args Hwf Hp Ho Hcall.
    destruct (writeToBuffer_stored m m' buffer offset r arg args Hwf Hp Ho Hcall)
      as (-> & _ & Hc).
    split; [exact Hc|lia].
  - intros args.
    assert (Hsum : total_size args
                   = fold_right Z.add 0 (map (fun v => Z.of_nat (sizeof v)) args)).
    { induction args as [|a rest IH]; cbn [total_size map fold_right]; [|rewrite IH];
        reflexivity. }
    split; [|exact Hsum].
    rewrite <- Hsum. apply pack_bytes_length.
Qed.

(** C4.  Reading back.  After a write that succeeds, reinterpreting the
    bytes written, in the order and with the widths of the types of the
    values, gives the values back, object representation for object
    representation: the bytes appended to the stream (when the call returns
    and the stream is [good()] afterwards), the bytes from the destination
    pointer on, the bytes of the vector from the offset on. *)
Theorem written_bytes_read_back :
  (forall (s s' : streams) (file r : stream_ref) (args : list value),
      writeToFile s file args = Returned r s' -> good (s' file) = true ->
      reinterpret (map typeof args)
        (skipn (length (written (s file))) (written (s' file)))
      = Some args)
  /\ (forall (m m' : memory) (buffer p : Z) (args : list value),
        0 <= buffer -> buffer + total_size args <= SIZE_MAX ->
        writeToRawMemory m buffer args = Returned p m' ->
        reinterpret (map typeof args)
          (load_bytes m' buffer (Z.to_nat (total_size args)))
        = Some args)
  /\ (forall (m m' : memory) (buffer : vector_char) (offset r : Z)
             (arg : value) (args : list value),
        wf_vector buffer -> pack_ok arg args -> 0 <= offset <= size buffer ->
        writeToBuffer m buffer offset arg args = Returned r m' ->
        reinterpret (map typeof (arg :: args))
          (firstn (Z.to_nat (total_size (arg :: args)))
             (skipn (Z.to_nat offset) (vector_contents m' buffer)))
        = Some (arg :: args)).
Proof.
  split; [|split].
  - intros s s' file r args Hcall Hok.
    destruct (writeToFile_appended s s' file r args Hcall Hok) as [_ ->].
    rewrite skipn_app_exact by reflexivity. apply reinterpret_pack_exact.
  - intros m m' buffer p args Hlo Hhi Hcall.
    destruct (writeToRawMemory_stored m m' buffer p args Hlo Hhi Hcall) as [_ ->].
    apply reinterpret_pack_exact.
  - intros m m' buffer offset r arg args Hwf Hp Ho Hcall.
    destruct (writeToBuffer_stored m m' buffer offset r arg args Hwf Hp Ho Hcall)
      as (_ & _ & ->).
    rewrite written_slice.
    + apply reinterpret_pack_exact.
    + unfold vector_contents. rewrite load_bytes_length.
      destruct Hwf as (_ & Hs & _). lia.
    + apply pack_bytes_length.
Qed.

End LayoutClaims.

(** ** The writers at concrete calls *)

Lemma buffer10_wf : wf_vector buffer10.
Proof.
  unfold wf_vector, buffer10, PTRDIFF_MAX, SIZE_MAX, nullptr. cbn [data size]. lia.
Qed.

Lemma int42_pack_ok : pack_ok int42 [].
Proof. unfold pack_ok, PTRDIFF_MAX. cbn. lia. Qed.

Lemma int42_float314_pack_ok : pack_ok int42 [float314].
Proof. unfold pack_ok, PTRDIFF_MAX. cbn. lia. Qed.

(** The scenario of the specification: a vector of 10 bytes, the [int] 42
    and the [float] 3.14 written at offset 0 give offset 8 and the two
    object representations side by side; one more [int] at offset 8 is
    rejected. *)
Example scenario_two_values_then_overflow :
  exists m',
    writeToBuffer zero_memory buffer10 0 int42 [float314] = Returned 8 m'
    /\ vector_contents m' buffer10
       = [x2a; x00; x00; x00; xc3; xf5; x48; x40; x00; x00]
    /\ writeToBuffer m' buffer10 8 int42 []
       = Threw (runtime_error "Buffer too small for data") m'.
Proof.
  eexists. split; [reflexivity|]. split; reflexivity.
Qed.

(** C1 at a vector of 10 bytes, offset 8, one [int]. *)
Lemma writeToBuffer_capacity_boundary_witness :
  wf_vector buffer10 /\ pack_ok int42 [] /\ 0 <= 8 <= size buffer10
  /\ 8 + total_size [int42] > size buffer10
  /\ writeToBuffer zero_memory buffer10 8 int42 []
     = Threw (runtime_error "Buffer too small for data") zero_memory.
Proof.
  assert (Ho : 0 <= 8 <= size buffer10) by (cbn; lia).
  assert (Hbig : 8 + total_size [int42] > size buffer10) by reflexivity.
  split; [exact buffer10_wf|]. split; [exact int42_pack_ok|].
  split; [exact Ho|]. split; [exact Hbig|].
  apply (proj1 (writeToBuffer_capacity_boundary zero_memory buffer10 8 int42 []
                  buffer10_wf int42_pack_ok Ho)).
  exact Hbig.
Defined.

(** C3 at a vector of 10 bytes, offset 0, an [int] and a [float]. *)
Lemma writeToBuffer_returns_new_offset_witness :
  wf_vector buffer10 /\ pack_ok int42 [float314] /\ 0 <= 0 <= size buffer10
  /\ 0 + total_size [int42; float314] <= size buffer10
  /\ (exists m',
        writeToBuffer zero_memory buffer10 0 int42 [float314]
        = Returned (0 + total_size [int42; float314]) m')
  /\ (forall new_offset m',
        writeToBuffer zero_memory buffer10 0 int42 [float314] = Returned new_offset m' ->
        new_offset = 0 + total_size [int42; float314]
        /\ new_offset <= size buffer10).
Proof.
  assert (Ho : 0 <= 0 <= size buffer10) by (cbn; lia).
  assert (Hfit : 0 + total_size [int42; float314] <= size buffer10) by (cbn; lia).
  split; [exact buffer10_wf|]. split; [exact int42_float314_pack_ok|].
  split; [exact Ho|]. split; [exact Hfit|].
  exact (writeToBuffer_returns_new_offset zero_memory buffer10 0 int42 [float314]
           buffer10_wf int42_float314_pack_ok Ho Hfit).
Defined.

(** The vector of 10 bytes, offset 0, one [int]: the check passes, and the
    chain of non-emptiness and non-null pointers holds. *)
Lemma writeToBuffer_never_invalid_destination_witness :
  wf_vector buffer10 /\ pack_ok int42 [] /\ 0 <= 0
  /\ 0 + total_size [int42] <= SIZE_MAX
  /\ capacity_check_passes buffer10 0 int42 [] = true
  /\ never_invalid_destination zero_memory buffer10 0 int42 [].
Proof.
  assert (Ho : 0 <= 0) by lia.
  assert (Hnw : 0 + total_size [int42] <= SIZE_MAX) by (unfold SIZE_MAX; cbn; lia).
  split; [exact buffer10_wf|]. split; [exact int42_pack_ok|]. split; [exact Ho|].
  split; [exact Hnw|]. split; [reflexivity|].
  exact (writeToBuffer_never_invalid_destination zero_memory buffer10 0 int42 []
           buffer10_wf int42_pack_ok Ho Hnw).
Defined.

(** C5 at address 4096 with an [int] and a [float]. *)
Lemma writeToRawMemory_copies_in_order_witness :
  4096 <> nullptr /\ 0 <= 4096 /\ 4096 + total_size [int42; float314] <= SIZE_MAX
  /\ exists m',
       writeToRawMemory zero_memory 4096 [int42; float314]
       = Returned (4096 + total_size [int42; float314]) m'
       /\ load_bytes m' 4096 (length (pack_bytes [int42; float314]))
          = pack_bytes [int42; float314]
       /\ (forall pre v post, [int42; float314] = pre ++ v :: post ->
             load_bytes m' (4096 + total_size pre) (sizeof v) = object_repr v)
       /\ (forall a, a < 4096 \/ 4096 + total_size [int42; float314] <= a ->
             m' a = zero_memory a).
Proof.
  assert (Hnn : 4096 <> nullptr) by (unfold nullptr; lia).
  assert (Hlo : 0 <= 4096) by lia.
  assert (Hhi : 4096 + total_size [int42; float314] <= SIZE_MAX)
    by (unfold SIZE_MAX; cbn; lia).
  split; [exact Hnn|]. split; [exact Hlo|]. split; [exact Hhi|].
  exact (writeToRawMemory_copies_in_order zero_memory 4096 [int42; float314] Hnn Hlo Hhi).
Defined.

(** C2 at [std::ofstream file; writeToFile(file, 42);]: no exception. *)
Lemma writeToFile_not_open_not_rejected_witness :
  is_open (unopened_streams 0%nat) = false /\ fail (unopened_streams 0%nat) = false
  /\ exists s',
       writeToFile unopened_streams 0%nat [int42] = Returned 0%nat s'
       /\ ~ raises (writeToFile unopened_streams 0%nat [int42]) InvalidDestination
       /\ written (s' 0%nat) = written (unopened_streams 0%nat)
       /\ (good (unopened_streams 0%nat) = true -> [int42] <> [] ->
           fail (s' 0%nat) = true).
Proof.
  split; [reflexivity|]. split; [reflexivity|].
  exact (writeToFile_not_open_not_rejected unopened_streams 0%nat [int42]
           eq_refl eq_refl).
Defined.

(** C10 at [std::ofstream file; writeToFile(file);]: no exception. *)
Lemma writeToFile_empty_pack_not_open_returns_witness :
  is_open (unopened_streams 0%nat) = false /\ fail (unopened_streams 0%nat) = false
  /\ @writeToFile LP64 unopened_streams 0%nat [] = Returned 0%nat unopened_streams
  /\ ~ raises (@writeToFile LP64 unopened_streams 0%nat []) InvalidDestination.
Proof.
  split; [reflexivity|]. split; [reflexivity|].
  exact (@writeToFile_empty_pack_not_open_returns LP64 unopened_streams 0%nat
           eq_refl eq_refl).
Defined.

(** The same on a stream that was opened and closed again. *)
Example writeToFile_on_closed_stream :
  exists s',
    writeToFile closed_streams 0%nat [int42] = Returned 0%nat s'
    /\ written (s' 0%nat) = [] /\ badbit (s' 0%nat) = true.
Proof. eexists. split; [reflexivity|]. split; reflexivity. Qed.

(** A stream whose [open] failed is rejected. *)
Example writeToFile_on_failed_open :
  writeToFile (fun _ => ofstream_open ofstream_default false None) 0%nat [int42]
  = Threw (runtime_error "File stream is not open")
      (fun _ => ofstream_open ofstream_default false None).
Proof. reflexivity. Qed.

(** C7 at an [int] and a [float], on an open stream, at address 4096 and in
    the vector of 10 bytes at offset 0. *)
Lemma write_stores_concatenation_witness :
  (exists s',
     writeToFile open_streams 0%nat [int42; float314] = Returned 0%nat s'
     /\ good (s' 0%nat) = true
     /\ written (s' 0%nat)
        = written (open_streams 0%nat) ++ concat (map object_repr [int42; float314]))
  /\ (exists m',
        writeToRawMemory zero_memory 4096 [int42; float314] = Returned 4104 m'
        /\ load_bytes m' 4096 (Z.to_nat (total_size [int42; float314]))
           = concat (map object_repr [int42; float314])
        /\ 4104 - 4096 = total_size [int42; float314])
  /\ (exists m',
        writeToBuffer zero_memory buffer10 0 int42 [float314] = Returned 8 m'
        /\ vector_contents m' buffer10
           = firstn (Z.to_nat 0) (vector_contents zero_memory buffer10)
             ++ concat (map object_repr [int42; float314])
             ++ skipn (Z.to_nat 8) (vector_contents zero_memory buffer10)
        /\ 8 - 0 = total_size [int42; float314]).
Proof.
  assert (Ho : 0 <= 0 <= size buffer10) by (cbn; lia).
  assert (Hlo : 0 <= 4096) by lia.
  assert (Hhi : 4096 + total_size [int42; float314] <= SIZE_MAX)
    by (unfold SIZE_MAX; cbn; lia).
  split; [|split].
  - eexists. split; [reflexivity|]. split; [reflexivity|].
    exact (proj1 (@write_stores_concatenation LP64) open_streams _ 0%nat 0%nat
             [int42; float314] eq_refl eq_refl).
  - eexists. split; [reflexivity|].
    exact (proj1 (proj2 (@write_stores_concatenation LP64)) zero_memory _ 4096 4104
             [int42; float314] Hlo Hhi eq_refl).
  - eexists. split; [reflexivity|].
    exact (proj1 (proj2 (proj2 (@write_stores_concatenation LP64))) _ _ buffer10 0 8
             int42 [float314] buffer10_wf int42_float314_pack_ok Ho eq_refl).
Defined.

(** C4 at the same three calls: what was written decodes to the two
    values. *)
Lemma written_bytes_read_back_witness :
  (exists s',
     writeToFile open_streams 0%nat [int42; float314] = Returned 0%nat s'
     /\ good (s' 0%nat) = true
     /\ reinterpret [TInt; TFloat]
          (skipn (length (written (open_streams 0%nat))) (written (s' 0%nat)))
        = Some [int42; float314])
  /\ (exists m',
        writeToRawMemory zero_memory 4096 [int42; float314] = Returned 4104 m'
        /\ reinterpret [TInt; TFloat]
             (load_bytes m' 4096 (Z.to_nat (total_size [int42; float314])))
           = Some [int42; float314])
  /\ (exists m',
        writeToBuffer zero_memory buffer10 0 int42 [float314] = Returned 8 m'
        /\ reinterpret [TInt; TFloat]
             (firstn (Z.to_nat (total_size [int42; float314]))
                (skipn (Z.to_nat 0) (vector_contents m' buffer10)))
           = Some [int42; float314]).
Proof.
  assert (Ho : 0 <= 0 <= size buffer10) by (cbn; lia).
  assert (Hlo : 0 <= 4096) by lia.
  assert (Hhi : 4096 + total_size [int42; float314] <= SIZE_MAX)
    by (unfold SIZE_MAX; cbn; lia).
  split; [|split].
  - eexists. split; [reflexivity|]. split; [reflexivity|].
    exact (proj1 (@written_bytes_read_back LP64) open_streams _ 0%nat 0%nat
             [int42; float314] eq_refl eq_refl).
  - eexists. split; [reflexivity|].
    exact (proj1 (proj2 (@written_bytes_read_back LP64)) zero_memory _ 4096 4104
             [int42; float314] Hlo Hhi eq_refl).
  - eexists. split; [reflexivity|].
    exact (proj2 (proj2 (@written_bytes_read_back LP64)) _ _ buffer10 0 8
             int42 [float314] buffer10_wf int42_float314_pack_ok Ho eq_refl).
Defined.

(** ** Chained calls *)

Lemma Returned_inj {St A : Type} (a a' : A) (s s' : St) :
  Returned a s = Returned a' s' -> a = a' /\ s = s'.
Proof. intros H. injection H as -> ->. split; reflexivity. Qed.

Section Chaining.
Context {DM : DataModel}.

Lemma copy_args_app (xs ys : list value) (m : memory) (p : Z) :
  copy_args m p (xs ++ ys)
  = (let (p1, m1) := copy_args m p xs in copy_args m1 p1 ys).
Proof.
  revert m p. induction xs as [|x xs IH]; intros m p; [reflexivity|].
  cbn [app copy_args]. apply IH.
Qed.

Lemma write_args_app (xs ys : list value) (s : streams) (file : stream_ref) :
  write_args s file (xs ++ ys) = write_args (write_args s file xs) file ys.
Proof.
  revert s. induction xs as [|x xs IH]; intros s; [reflexivity|].
  cbn [app write_args]. apply IH.
Qed.

Lemma pack_ok_split (a b : value) (xs ys : list value) :
  pack_ok a (xs ++ b :: ys) -> pack_ok a xs /\ pack_ok b ys.
Proof.
  unfold pack_ok. change (a :: xs ++ b :: ys) with ((a :: xs) ++ b :: ys).
  rewrite total_size_app.
  pose proof (total_size_cons_pos a xs). pose proof (total_size_cons_pos b ys).
  lia.
Qed.

(** X1.  The pointer [writeToRawMemory] returns continues the write: for a
    non-null destination with the first pack inside the address space,
    one call with the packs [xs] and [ys] together is the call with [xs]
    followed by the call with [ys] at the pointer the first returned, with
    the same final pointer and the same store. *)
Theorem writeToRawMemory_chained (m : memory) (buffer : Z) (xs ys : list value) :
  buffer <> nullptr -> 0 <= buffer -> buffer + total_size xs <= SIZE_MAX ->
  exists p1 m1,
    writeToRawMemory m buffer xs = Returned p1 m1
    /\ p1 = buffer + total_size xs
    /\ writeToRawMemory m buffer (xs ++ ys) = writeToRawMemory m1 p1 ys.
Proof.
  intros Hnn Hlo Hhi. pose proof (total_size_nonneg xs) as Hts.
  unfold nullptr in Hnn.
  exists (buffer + total_size xs), (store_bytes m buffer (pack_bytes xs)).
  assert (Hfirst : copy_args m buffer xs
                   = (buffer + total_size xs, store_bytes m buffer (pack_bytes xs))).
  { rewrite copy_args_spec by lia. rewrite ptr_add_small by lia. reflexivity. }
  split; [|split; [reflexivity|]].
  - rewrite writeToRawMemory_nonnull by (unfold nullptr; lia).
    rewrite ptr_add_small by lia. reflexivity.
  - unfold writeToRawMemory.
    destruct (Z.eqb_spec buffer nullptr) as [E|_]; [unfold nullptr in E; lia|].
    destruct (Z.eqb_spec (buffer + total_size xs) nullptr) as [E|_];
      [unfold nullptr in E; lia|].
    cbv zeta. rewrite copy_args_app, Hfirst. reflexivity.
Qed.

(** X2.  The offset [writeToBuffer] returns continues the write.  For a
    well-formed vector and an offset inside it, one call with the pack
    [arg, xs, b, ys] returns offset [r] and store [m'] exactly when the call
    with [arg, xs] returns some offset [r1], strictly between the two, and
    the call with [b, ys] at [r1], on the store the first call left, returns
    [r] and [m']. *)
Theorem writeToBuffer_chained (m m' : memory) (buffer : vector_char) (offset r : Z)
    (arg b : value) (xs ys : list value) :
  wf_vector buffer -> pack_ok arg (xs ++ b :: ys) -> 0 <= offset <= size buffer ->
  (writeToBuffer m buffer offset arg (xs ++ b :: ys) = Returned r m'
   <-> exists r1 m1,
         writeToBuffer m buffer offset arg xs = Returned r1 m1
         /\ offset < r1 < r
         /\ writeToBuffer m1 buffer r1 b ys = Returned r m').
Proof.
  intros Hwf Hp Ho. destruct (pack_ok_split arg b xs ys Hp) as [Hp1 Hp2].
  pose proof (total_size_cons_pos arg xs) as H1.
  pose proof (total_size_cons_pos b ys) as H2.
  assert (Htot : total_size (arg :: xs ++ b :: ys)
                 = total_size (arg :: xs) + total_size (b :: ys)).
  { change (arg :: xs ++ b :: ys) with ((arg :: xs) ++ b :: ys). apply total_size_app. }
  assert (Hbytes : pack_bytes (arg :: xs ++ b :: ys)
                   = pack_bytes (arg :: xs) ++ pack_bytes (b :: ys)).
  { change (arg :: xs ++ b :: ys) with ((arg :: xs) ++ b :: ys). apply pack_bytes_app. }
  assert (Hstore : offset + total_size (arg :: xs ++ b :: ys) <= size buffer ->
            store_bytes m (data buffer + offset) (pack_bytes (arg :: xs ++ b :: ys))
            = store_bytes
                (store_bytes m (data buffer + offset) (pack_bytes (arg :: xs)))
                (data buffer + (offset + total_size (arg :: xs)))
                (pack_bytes (b :: ys))).
  { intros Hfit. destruct Hwf as (Hd & Hs & He & _).
    rewrite Hbytes, store_bytes_app by lia.
    rewrite pack_bytes_length, ptr_add_small by lia.
    f_equal. lia. }
  split.
  - intros Hcall.
    destruct (Z_le_gt_dec (offset + total_size (arg :: xs ++ b :: ys)) (size buffer))
      as [Hfit|Hbig].
    2:{ rewrite writeToBuffer_exceeds in Hcall by assumption. discriminate. }
    rewrite writeToBuffer_fits in Hcall by assumption.
    apply Returned_inj in Hcall as [<- <-].
    exists (offset + total_size (arg :: xs)),
           (store_bytes m (data buffer + offset) (pack_bytes (arg :: xs))).
    split; [apply writeToBuffer_fits; (assumption || lia)|]. split; [lia|].
    rewrite writeToBuffer_fits by (assumption || lia).
    rewrite Hstore by assumption. f_equal. lia.
  - intros (r1 & m1 & Hc1 & Hr1 & Hc2).
    destruct (Z_le_gt_dec (offset + total_size (arg :: xs)) (size buffer)) as [Hfit1|Hbig1].
    2:{ rewrite writeToBuffer_exceeds in Hc1 by assumption. discriminate. }
    rewrite writeToBuffer_fits in Hc1 by assumption.
    apply Returned_inj in Hc1 as [<- <-].
    destruct (Z_le_gt_dec (offset + total_size (arg :: xs) + total_size (b :: ys))
                (size buffer)) as [Hfit2|Hbig2].
    2:{ rewrite writeToBuffer_exceeds in Hc2 by (assumption || lia). discriminate. }
    rewrite writeToBuffer_fits in Hc2 by (assumption || lia).
    apply Returned_inj in Hc2 as [<- <-].
    rewrite writeToBuffer_fits by (assumption || lia).
    rewrite Hstore by lia. f_equal. lia.
Qed.

End Chaining.

(** ** Where the buffer writer writes *)

Lemma size_t_add_wrapped (a b : Z) :
  SIZE_MAX < a + b -> a + b - 2 ^ 64 <= SIZE_MAX ->
  size_t_add a b = a + b - 2 ^ 64.
Proof.
  unfold size_t_add, SIZE_MAX. intros Hlo Hhi.
  replace (a + b) with (a + b - 2 ^ 64 + 1 * 2 ^ 64) at 1 by lia.
  rewrite Z.mod_add by lia. apply Z.mod_small. lia.
Qed.

Section BufferBounds.
Context {DM : DataModel}.

(** X3.  A successful call with the offset inside a well-formed vector
    writes inside the vector only: the returned offset [r] lies in
    [(offset, size]], and every address outside
    [[data + offset, data + r)] holds the byte it held before, so nothing
    in front of, behind, or outside the vector's storage is touched. *)
Theorem writeToBuffer_writes_inside_vector (m m' : memory) (buffer : vector_char)
    (offset r : Z) (arg : value) (args : list value) :
  wf_vector buffer -> pack_ok arg args -> 0 <= offset <= size buffer ->
  writeToBuffer m buffer offset arg args = Returned r m' ->
  offset < r <= size buffer
  /\ (forall a, a < data buffer + offset \/ data buffer + r <= a -> m' a = m a).
Proof.
  intros Hwf Hp Ho Hcall. pose proof (total_size_cons_pos arg args) as Hpos.
  pose proof (pack_bytes_length (arg :: args)) as Hlen.
  destruct (Z_le_gt_dec (offset + total_size (arg :: args)) (size buffer)) as [Hfit|Hbig].
  2:{ rewrite writeToBuffer_exceeds in Hcall by assumption. discriminate. }
  rewrite writeToBuffer_fits in Hcall by assumption.
  apply Returned_inj in Hcall as [<- <-].
  destruct Hwf as (Hd & Hs & He & _). unfold SIZE_MAX in He.
  split; [lia|]. intros a Ha. apply store_bytes_frame; lia.
Qed.

(** X4.  The offset the buffer writer returns and the pointer the
    raw-memory writer returns for the same call agree: when
    [writeToBuffer] returns [r] with the offset inside a well-formed vector,
    [writeToRawMemory] at [data() + offset] with the same pack returns
    [data() + r] and the same store. *)
Theorem writeToBuffer_agrees_with_writeToRawMemory (m m' : memory)
    (buffer : vector_char) (offset r : Z) (arg : value) (args : list value) :
  wf_vector buffer -> pack_ok arg args -> 0 <= offset <= size buffer ->
  writeToBuffer m buffer offset arg args = Returned r m' ->
  writeToRawMemory m (data buffer + offset) (arg :: args) = Returned (data buffer + r) m'.
Proof.
  intros Hwf Hp Ho Hcall. pose proof (total_size_cons_pos arg args) as Hpos.
  destruct (Z_le_gt_dec (offset + total_size (arg :: args)) (size buffer)) as [Hfit|Hbig].
  2:{ rewrite writeToBuffer_exceeds in Hcall by assumption. discriminate. }
  rewrite writeToBuffer_fits in Hcall by assumption.
  apply Returned_inj in Hcall as [<- <-].
  destruct Hwf as (Hd & Hs & He & Hnn).
  assert (data buffer <> 0) by (apply Hnn; lia).
  rewrite writeToRawMemory_nonnull by (unfold nullptr; lia).
  rewrite ptr_add_small by lia. f_equal. lia.
Qed.

(** X5.  Offsets past the end of the vector ([size < offset]).  When
    [offset + required] does not exceed [SIZE_MAX] the call is rejected
    with "Buffer too small for data" and the store is unchanged.  When the
    sum exceeds [SIZE_MAX] it is compared after wrapping: the call is
    rejected if the wrapped sum is larger than the size; otherwise it is
    not rejected, the pointer passed to the raw-memory writer lies outside
    the vector's storage, and an offset that is returned is the wrapped
    sum, smaller than the offset given. *)
Theorem writeToBuffer_offset_past_end (m : memory) (buffer : vector_char)
    (offset : Z) (arg : value) (args : list value) :
  wf_vector buffer -> pack_ok arg args -> size buffer < offset <= SIZE_MAX ->
  (offset + total_size (arg :: args) <= SIZE_MAX ->
     writeToBuffer m buffer offset arg args
     = Threw (runtime_error "Buffer too small for data") m)
  /\ (SIZE_MAX < offset + total_size (arg :: args) ->
      size buffer < offset + total_size (arg :: args) - 2 ^ 64 ->
        writeToBuffer m buffer offset arg args
        = Threw (runtime_error "Buffer too small for data") m)
  /\ (SIZE_MAX < offset + total_size (arg :: args) ->
      offset + total_size (arg :: args) - 2 ^ 64 <= size buffer ->
        ~ raises (writeToBuffer m buffer offset arg args) CapacityExceeded
        /\ (ptr_add (data buffer) offset < data buffer
            \/ data buffer + size buffer <= ptr_add (data buffer) offset)
        /\ (forall r m', writeToBuffer m buffer offset arg args = Returned r m' ->
              r = offset + total_size (arg :: args) - 2 ^ 64 /\ r < offset)).
Proof.
  intros (Hd & Hs & He & _) Hp Ho.
  pose proof (total_size_cons_pos arg args) as Hpos.
  pose proof Hp as Hp'. unfold pack_ok, PTRDIFF_MAX in Hp'.
  unfold PTRDIFF_MAX in Hs. unfold SIZE_MAX in *.
  split; [|split].
  - intros Hsmall. unfold writeToBuffer. cbv zeta.
    rewrite fold_sizeof_exact by assumption.
    rewrite size_t_add_small by (unfold SIZE_MAX; lia).
    rewrite Z.gtb_ltb.
    destruct (Z.ltb_spec (size buffer) (offset + total_size (arg :: args)));
      [reflexivity|lia].
  - intros Hwrap Hbig. unfold writeToBuffer. cbv zeta.
    rewrite fold_sizeof_exact by assumption.
    rewrite size_t_add_wrapped by (unfold SIZE_MAX; lia).
    rewrite Z.gtb_ltb.
    destruct (Z.ltb_spec (size buffer) (offset + total_size (arg :: args) - 2 ^ 64));
      [reflexivity|lia].
  - intros Hwrap Hle.
    assert (Hcall : writeToBuffer m buffer offset arg args
                    = match writeToRawMemory m (ptr_add (data buffer) offset) (arg :: args) with
                      | Threw e m' => Threw e m'
                      | Returned _ m' =>
                          Returned (offset + total_size (arg :: args) - 2 ^ 64) m'
                      end).
    { unfold writeToBuffer. cbv zeta.
      rewrite fold_sizeof_exact by assumption.
      rewrite size_t_add_wrapped by (unfold SIZE_MAX; lia).
      rewrite Z.gtb_ltb.
      destruct (Z.ltb_spec (size buffer) (offset + total_size (arg :: args) - 2 ^ 64));
        [lia|reflexivity]. }
    split; [|split].
    + rewrite Hcall. unfold writeToRawMemory.
      destruct (ptr_add (data buffer) offset =? nullptr).
      * cbn. discriminate.
      * destruct (copy_args m (ptr_add (data buffer) offset) (arg :: args)).
        intros [].
    + destruct (Z_lt_le_dec (data buffer + offset) (2 ^ 64)) as [Hin|Hout].
      * right. rewrite ptr_add_small by (unfold SIZE_MAX; lia). lia.
      * left. unfold ptr_add.
        replace (data buffer + offset)
          with (data buffer + offset - 2 ^ 64 + 1 * 2 ^ 64) by lia.
        rewrite Z.mod_add by lia. rewrite Z.mod_small by lia. lia.
    + intros r m'. rewrite Hcall.
      destruct (writeToRawMemory m (ptr_add (data buffer) offset) (arg :: args));
        [|discriminate].
      intros Hr. apply Returned_inj in Hr as [<- _]. lia.
Qed.

End BufferBounds.

(** ** What the stream writer does to the stream *)

Lemma ostream_write_is_open (f : ofstream) (s : list byte) (n : nat) :
  is_open (ostream_write f s n) = is_open f.
Proof. unfold ostream_write. destruct (good f); reflexivity. Qed.

Lemma firstn_app_short {A : Type} (xs ys : list A) (k : nat) :
  (k <= length xs)%nat -> firstn k (xs ++ ys) = firstn k xs.
Proof.
  intros H. rewrite firstn_app.
  replace (k - length xs)%nat with O by lia. rewrite firstn_O. apply app_nil_r.
Qed.

Lemma firstn_app_long {A : Type} (xs ys : list A) (k : nat) :
  (length xs <= k)%nat -> firstn k (xs ++ ys) = xs ++ firstn (k - length xs) ys.
Proof.
  intros H. rewrite firstn_app, firstn_all2 by exact H. reflexivity.
Qed.

Section StreamEffects.
Context {DM : DataModel}.

Lemma write_all_is_open (args : list value) (f : ofstream) :
  is_open (write_all f args) = is_open f.
Proof.
  revert f. induction args as [|a rest IH]; intros f; [reflexivity|].
  unfold write_all in *. cbn [fold_left]. rewrite IH. apply ostream_write_is_open.
Qed.

(** Whatever the state of the stream, what it takes of a pack is a prefix
    of the bytes of the pack. *)
Lemma write_all_prefix (args : list value) (f : ofstream) :
  exists k, (k <= length (pack_bytes args))%nat
    /\ written (write_all f args) = written f ++ firstn k (pack_bytes args).
Proof.
  revert f. induction args as [|a rest IH]; intros f.
  - exists O. split; [apply Nat.le_0_l|]. cbn. symmetry. apply app_nil_r.
  - unfold write_all in *. cbn [fold_left].
    set (f1 := ostream_write f (object_repr a) (sizeof a)).
    rewrite pack_bytes_cons, length_app, object_repr_length.
    destruct (good f1) eqn:G1.
    + destruct (ostream_write_ok _ _ _ G1) as (_ & _ & W1). fold f1 in W1.
      destruct (IH f1) as (k2 & Hk2 & W2).
      exists (sizeof a + k2)%nat. split; [lia|].
      rewrite W2, W1, <- app_assoc. f_equal.
      rewrite firstn_app_long by (rewrite object_repr_length; lia).
      rewrite (firstn_all2 (object_repr a)) by (rewrite object_repr_length; lia).
      f_equal. f_equal. rewrite object_repr_length. lia.
    + destruct (write_all_not_good rest f1 G1) as [_ W]. unfold write_all in W. rewrite W.
      unfold f1, ostream_write. destruct (good f); cbn [written].
      * exists (accepted f (sizeof a)). pose proof (accepted_le f (sizeof a)).
        split; [lia|].
        rewrite firstn_app_short by (rewrite object_repr_length; assumption).
        reflexivity.
      * exists O. split; [lia|]. cbn. symmetry. apply app_nil_r.
Qed.

(** A good, open stream whose sink has room for [r] more bytes takes the
    first [r] bytes of the pack, and fails when that is not all of it. *)
Lemma write_all_bounded (args : list value) (f : ofstream) (r : nat) :
  is_open f = true -> good f = true -> room f = Some r ->
  written (write_all f args) = written f ++ firstn r (pack_bytes args)
  /\ fail (write_all f args) = (r <? length (pack_bytes args))%nat.
Proof.
  revert f r. induction args as [|a rest IH]; intros f r Ho Hg Hr.
  - cbn. rewrite firstn_nil, app_nil_r. split; [reflexivity|].
    unfold good, fail in *. destruct (badbit f), (failbit f); auto.
  - unfold write_all in *. cbn [fold_left].
    set (f1 := ostream_write f (object_repr a) (sizeof a)).
    rewrite pack_bytes_cons, length_app, object_repr_length.
    assert (Hbits : badbit f = false /\ failbit f = false /\ eofbit f = false).
    { unfold good in Hg. destruct (badbit f), (failbit f), (eofbit f); auto; discriminate. }
    destruct Hbits as (Hb & Hf & He).
    destruct (Nat.le_gt_cases (sizeof a) r) as [Hfits|Hshort].
    + assert (E : f1 = {| is_open := true; badbit := false; failbit := false;
                          eofbit := false; room := Some (r - sizeof a)%nat;
                          written := written f ++ object_repr a |}).
      { unfold f1, ostream_write, accepted. rewrite Hg, Ho, Hr, Hf, He. cbv zeta.
        rewrite Nat.min_r by exact Hfits. rewrite Nat.ltb_irrefl.
        rewrite (firstn_all2 (object_repr a)) by (rewrite object_repr_length; lia).
        reflexivity. }
      destruct (IH f1 (r - sizeof a)%nat) as [W F];
        try (rewrite E; reflexivity).
      rewrite W, F, E. cbn [written]. rewrite <- app_assoc. split.
      * f_equal. rewrite firstn_app_long by (rewrite object_repr_length; exact Hfits).
        rewrite object_repr_length. reflexivity.
      * destruct (Nat.ltb_spec (r - sizeof a) (length (pack_bytes rest)));
          destruct (Nat.ltb_spec r (sizeof a + length (pack_bytes rest)));
          (reflexivity || lia).
    + assert (E : f1 = {| is_open := true; badbit := true; failbit := false;
                          eofbit := false; room := Some (r - r)%nat;
                          written := written f ++ firstn r (object_repr a) |}).
      { unfold f1, ostream_write, accepted. rewrite Hg, Ho, Hr, Hf, He. cbv zeta.
        rewrite Nat.min_l by lia.
        destruct (Nat.ltb_spec r (sizeof a)); [reflexivity|lia]. }
      assert (F1 : fail f1 = true) by (rewrite E; reflexivity).
      destruct (write_all_fail rest f1 F1) as [F W]. unfold write_all in F, W.
      rewrite W, F, E. cbn [written]. split.
      * f_equal. symmetry. apply firstn_app_short. rewrite object_repr_length. lia.
      * symmetry. apply Nat.ltb_lt. lia.
Qed.

(** X6.  A call of [writeToFile] that returns has only appended to the one
    stream: it returns the reference it was given, every other stream is as
    before, the stream is open exactly if it was, and what it has taken is
    what it had taken before followed by a prefix of the bytes of the pack
    (never bytes out of order, never anything but bytes of the pack). *)
Theorem writeToFile_only_appends (s s' : streams) (file r : stream_ref)
    (args : list value) :
  writeToFile s file args = Returned r s' ->
  r = file
  /\ (forall x, x <> file -> s' x = s x)
  /\ is_open (s' file) = is_open (s file)
  /\ exists k, (k <= length (pack_bytes args))%nat
       /\ written (s' file) = written (s file) ++ firstn k (pack_bytes args).
Proof.
  unfold writeToFile. destruct (fail (s file)); [discriminate|].
  intros H. apply Returned_inj in H as [<- <-].
  split; [reflexivity|]. split; [|split].
  - intros x Hx. apply write_args_other. exact Hx.
  - rewrite write_args_same. apply write_all_is_open.
  - rewrite write_args_same. apply write_all_prefix.
Qed.

(** X7.  The stream [writeToFile] returns continues the write only while it
    is unfailed.  After a call with [xs] that returned: if the stream is
    not failed, the call with [xs] and [ys] together is the call with [ys]
    on the streams the first call left; if the stream is failed (a write
    of [xs] did not go through), the call with [xs] and [ys] together still
    returns, with nothing of [ys] appended, whereas a second call with [ys]
    is rejected with "File stream is not open". *)
Theorem writeToFile_chained (s s1 : streams) (file r : stream_ref)
    (xs ys : list value) :
  writeToFile s file xs = Returned r s1 ->
  (fail (s1 file) = false ->
     writeToFile s file (xs ++ ys) = writeToFile s1 file ys)
  /\ (fail (s1 file) = true ->
        writeToFile s1 file ys = Threw (runtime_error "File stream is not open") s1
        /\ exists s2,
             writeToFile s file (xs ++ ys) = Returned file s2
             /\ written (s2 file) = written (s1 file)
             /\ fail (s2 file) = true).
Proof.
  unfold writeToFile. destruct (fail (s file)) eqn:F0; [discriminate|].
  intros H. apply Returned_inj in H as [<- <-].
  split.
  - intros F1. rewrite F1, write_args_app. reflexivity.
  - intros F1. rewrite F1. split; [reflexivity|].
    exists (write_args s file (xs ++ ys)). split; [reflexivity|].
    rewrite write_args_app, !write_args_same.
    rewrite write_args_same in F1.
    destruct (write_all_fail ys (write_all (s file) xs) F1) as [F W].
    split; assumption.
Qed.

(** X8.  A sink that fills up.  On an open, good stream whose sink takes
    [room] more bytes, [writeToFile] returns the stream and throws nothing,
    whether or not the pack fits: the stream has taken the first [room]
    bytes of the pack (all of it when it fits), and it is failed afterwards
    exactly when the pack is longer than [room]. *)
Theorem writeToFile_sink_full (s : streams) (file : stream_ref) (args : list value)
    (n : nat) :
  is_open (s file) = true -> good (s file) = true -> room (s file) = Some n ->
  exists s',
    writeToFile s file args = Returned file s'
    /\ written (s' file) = written (s file) ++ firstn n (pack_bytes args)
    /\ fail (s' file) = (n <? length (pack_bytes args))%nat.
Proof.
  intros Ho Hg Hr. exists (write_args s file args).
  assert (Hf : fail (s file) = false).
  { unfold good, fail in *. destruct (badbit (s file)), (failbit (s file)); auto. }
  unfold writeToFile. rewrite Hf. split; [reflexivity|].
  rewrite write_args_same. apply write_all_bounded; assumption.
Qed.

End StreamEffects.

(** ** The required size *)

(** X9.  The size [writeToBuffer] requires, the fold [(sizeof(args) + ...)]
    in [size_t], is the sum of the sizes of the values modulo [2^64]: it
    does not depend on how the additions are nested, and it is a [size_t]
    whatever the pack. *)
Theorem required_size_is_sum_modulo {DM : DataModel} (arg : value) (args : list value) :
  fold_sizeof arg args
  = fold_right Z.add 0 (map (fun v => Z.of_nat (sizeof v)) (arg :: args)) mod 2 ^ 64
  /\ 0 <= fold_sizeof arg args <= SIZE_MAX.
Proof.
  assert (Hsum : forall vs : list value,
             total_size vs = fold_right Z.add 0 (map (fun v => Z.of_nat (sizeof v)) vs)).
  { induction vs as [|v vs IH]; cbn [total_size map fold_right]; [|rewrite IH];
      reflexivity. }
  rewrite <- Hsum, fold_sizeof_spec. split; [reflexivity|].
  pose proof (Z.mod_pos_bound (total_size (arg :: args)) (2 ^ 64) two64_pos).
  unfold SIZE_MAX. lia.
Qed.

(** ** The further properties at concrete calls *)

(** A stream store in which every stream is open on a sink with room for
    six bytes. *)
Definition six_byte_streams : streams :=
  fun _ => ofstream_open ofstream_default true (Some 6%nat).

(** The store after the [int] 42 and the [float] 3.14 were copied to
    address 4096. *)
Definition memory_after_two : memory :=
  store_bytes zero_memory 4096 (pack_bytes [int42; float314]).

(** X1 at address 4096: an [int], then a [float]. *)
Lemma writeToRawMemory_chained_witness :
  4096 <> nullptr /\ 0 <= 4096 /\ 4096 + total_size [int42] <= SIZE_MAX
  /\ exists p1 m1,
       writeToRawMemory zero_memory 4096 [int42] = Returned p1 m1
       /\ p1 = 4096 + total_size [int42]
       /\ writeToRawMemory zero_memory 4096 ([int42] ++ [float314])
          = writeToRawMemory m1 p1 [float314].
Proof.
  assert (Hnn : 4096 <> nullptr) by (unfold nullptr; lia).
  assert (Hlo : 0 <= 4096) by lia.
  assert (Hhi : 4096 + total_size [int42] <= SIZE_MAX) by (unfold SIZE_MAX; cbn; lia).
  split; [exact Hnn|]. split; [exact Hlo|]. split; [exact Hhi|].
  exact (writeToRawMemory_chained zero_memory 4096 [int42] [float314] Hnn Hlo Hhi).
Defined.

(** X2 at the vector of 10 bytes: an [int] and a [float] in one call or in
    two. *)
Lemma writeToBuffer_chained_witness :
  wf_vector buffer10 /\ pack_ok int42 ([] ++ float314 :: []) /\ 0 <= 0 <= size buffer10
  /\ (writeToBuffer zero_memory buffer10 0 int42 ([] ++ float314 :: [])
      = Returned 8 memory_after_two
      <-> exists r1 m1,
            writeToBuffer zero_memory buffer10 0 int42 [] = Returned r1 m1
            /\ 0 < r1 < 8
            /\ writeToBuffer m1 buffer10 r1 float314 [] = Returned 8 memory_after_two).
Proof.
  assert (Ho : 0 <= 0 <= size buffer10) by (cbn; lia).
  split; [exact buffer10_wf|]. split; [exact int42_float314_pack_ok|].
  split; [exact Ho|].
  exact (writeToBuffer_chained zero_memory memory_after_two buffer10 0 8
           int42 float314 [] [] buffer10_wf int42_float314_pack_ok Ho).
Defined.

(** X3 at the vector of 10 bytes, offset 0, an [int] and a [float]. *)
Lemma writeToBuffer_writes_inside_vector_witness :
  wf_vector buffer10 /\ pack_ok int42 [float314] /\ 0 <= 0 <= size buffer10
  /\ writeToBuffer zero_memory buffer10 0 int42 [float314] = Returned 8 memory_after_two
  /\ 0 < 8 <= size buffer10
  /\ (forall a, a < data buffer10 + 0 \/ data buffer10 + 8 <= a ->
        memory_after_two a = zero_memory a).
Proof.
  assert (Ho : 0 <= 0 <= size buffer10) by (cbn; lia).
  split; [exact buffer10_wf|]. split; [exact int42_float314_pack_ok|].
  split; [exact Ho|]. split; [reflexivity|].
  exact (writeToBuffer_writes_inside_vector zero_memory memory_after_two buffer10 0 8
           int42 [float314] buffer10_wf int42_float314_pack_ok Ho eq_refl).
Defined.

(** X4 at the same call. *)
Lemma writeToBuffer_agrees_with_writeToRawMemory_witness :
  wf_vector buffer10 /\ pack_ok int42 [float314] /\ 0 <= 0 <= size buffer10
  /\ writeToBuffer zero_memory buffer10 0 int42 [float314] = Returned 8 memory_after_two
  /\ writeToRawMemory zero_memory (data buffer10 + 0) [int42; float314]
     = Returned (data buffer10 + 8) memory_after_two.
Proof.
  assert (Ho : 0 <= 0 <= size buffer10) by (cbn; lia).
  split; [exact buffer10_wf|]. split; [exact int42_float314_pack_ok|].
  split; [exact Ho|]. split; [reflexivity|].
  exact (writeToBuffer_agrees_with_writeToRawMemory zero_memory memory_after_two
           buffer10 0 8 int42 [float314] buffer10_wf int42_float314_pack_ok Ho eq_refl).
Defined.

(** X5 at the vector of 10 bytes, offset 11 (one past the end is 10), one
    [int]: the sum does not wrap and the call is rejected. *)
Lemma writeToBuffer_offset_past_end_witness :
  wf_vector buffer10 /\ pack_ok int42 [] /\ size buffer10 < 11 <= SIZE_MAX
  /\ 11 + total_size [int42] <= SIZE_MAX
  /\ writeToBuffer zero_memory buffer10 11 int42 []
     = Threw (runtime_error "Buffer too small for data") zero_memory.
Proof.
  assert (Ho : size buffer10 < 11 <= SIZE_MAX) by (unfold SIZE_MAX; cbn; lia).
  assert (Hs : 11 + total_size [int42] <= SIZE_MAX) by (unfold SIZE_MAX; cbn; lia).
  split; [exact buffer10_wf|]. split; [exact int42_pack_ok|].
  split; [exact Ho|]. split; [exact Hs|].
  exact (proj1 (writeToBuffer_offset_past_end zero_memory buffer10 11 int42 []
                  buffer10_wf int42_pack_ok Ho) Hs).
Defined.

(** X6 at an open stream and one [int]. *)
Lemma writeToFile_only_appends_witness :
  writeToFile open_streams 0%nat [int42]
  = Returned 0%nat (write_args open_streams 0%nat [int42])
  /\ 0%nat = 0%nat
  /\ (forall x, x <> 0%nat -> write_args open_streams 0%nat [int42] x = open_streams x)
  /\ is_open (write_args open_streams 0%nat [int42] 0%nat) = is_open (open_streams 0%nat)
  /\ exists k, (k <= length (pack_bytes [int42]))%nat
       /\ written (write_args open_streams 0%nat [int42] 0%nat)
          = written (open_streams 0%nat) ++ firstn k (pack_bytes [int42]).
Proof.
  split; [reflexivity|].
  exact (writeToFile_only_appends open_streams (write_args open_streams 0%nat [int42])
           0%nat 0%nat [int42] eq_refl).
Defined.

(** X7 on a sink with room for six bytes: an [int] and a [float] do not
    fit, so the stream is failed when a further [int] follows. *)
Lemma writeToFile_chained_witness :
  writeToFile six_byte_streams 0%nat [int42; float314]
  = Returned 0%nat (write_args six_byte_streams 0%nat [int42; float314])
  /\ fail (write_args six_byte_streams 0%nat [int42; float314] 0%nat) = true
  /\ writeToFile (write_args six_byte_streams 0%nat [int42; float314]) 0%nat [int42]
     = Threw (runtime_error "File stream is not open")
         (write_args six_byte_streams 0%nat [int42; float314])
  /\ exists s2,
       writeToFile six_byte_streams 0%nat ([int42; float314] ++ [int42])
       = Returned 0%nat s2
       /\ written (s2 0%nat)
          = written (write_args six_byte_streams 0%nat [int42; float314] 0%nat)
       /\ fail (s2 0%nat) = true.
Proof.
  split; [reflexivity|]. split; [reflexivity|].
  exact (proj2 (writeToFile_chained six_byte_streams
                  (write_args six_byte_streams 0%nat [int42; float314])
                  0%nat 0%nat [int42; float314] [int42] eq_refl) eq_refl).
Defined.

(** X8 on a sink with room for six bytes: of the eight bytes of an [int]
    and a [float], six are taken. *)
Lemma writeToFile_sink_full_witness :
  is_open (six_byte_streams 0%nat) = true /\ good (six_byte_streams 0%nat) = true
  /\ room (six_byte_streams 0%nat) = Some 6%nat
  /\ exists s',
       writeToFile six_byte_streams 0%nat [int42; float314] = Returned 0%nat s'
       /\ written (s' 0%nat)
          = written (six_byte_streams 0%nat) ++ firstn 6 (pack_bytes [int42; float314])
       /\ fail (s' 0%nat) = (6 <? length (pack_bytes [int42; float314]))%nat.
Proof.
  split; [reflexivity|]. split; [reflexivity|]. split; [reflexivity|].
  exact (writeToFile_sink_full six_byte_streams 0%nat [int42; float314] 6%nat
           eq_refl eq_refl eq_refl).
Defined.

(** The bytes a six-byte sink takes of the [int] 42 and the [float] 3.14. *)
Example six_bytes_taken :
  written (write_args six_byte_streams 0%nat [int42; float314] 0%nat)
  = [x2a; x00; x00; x00; xc3; xf5].
Proof. reflexivity. Qed.
